(** * User Calendar Event Copier (gas_gcal_pto_user_sync.js)

    A shallow embedding of the Apps Script that copies "PTO"-like events
    from user calendars to a team calendar, and the properties of its
    filter, its transform, its paginated query and its pass.

    The script talks to hosted services (Calendar, PropertiesService,
    ScriptApp, Utilities, console, Date).  Their behaviour is a
    parameter of the development ([Platform]); what the script does with
    them is written out as state passing over a [World]. *)

From Stdlib Require Import ZArith List String Ascii Bool Lia DecimalString.
From stdpp Require Import gmap strings.
Import ListNotations.

Local Open Scope string_scope.
Local Open Scope list_scope.

(** ** JavaScript strings *)

Module Js.

(** [c.toLowerCase()] for strings of ASCII characters, which is what
    the model covers: 'A'..'Z' go to 'a'..'z', every other character is
    left alone. *)
Definition lowerChar (c : ascii) : ascii :=
  let n := nat_of_ascii c in
  if (65 <=? n)%nat && (n <=? 90)%nat then ascii_of_nat (n + 32) else c.

Fixpoint toLowerCase (s : string) : string :=
  match s with
  | EmptyString => EmptyString
  | String c s' => String (lowerChar c) (toLowerCase s')
  end.

(** [s.indexOf(k)]: the least position at which [k] starts in [s],
    or -1. *)
Fixpoint indexOfFrom (i : Z) (s k : string) : Z :=
  if String.prefix k s then i
  else match s with
       | EmptyString => (-1)%Z
       | String _ s' => indexOfFrom (i + 1)%Z s' k
       end.

Definition indexOf (s k : string) : Z := indexOfFrom 0%Z s k.

(** [s.split('@')[0]]: the text before the first '@' (all of [s]
    when there is none). *)
Fixpoint splitAt0 (s : string) : string :=
  match s with
  | EmptyString => EmptyString
  | String c s' => if Ascii.eqb c "@"%char then EmptyString
                   else String c (splitAt0 s')
  end.

(** Truthiness of a string-or-undefined value: [undefined] and the
    empty string are falsy. *)
Definition truthy (o : option string) : bool :=
  match o with
  | Some s => negb (String.eqb s "")
  | None => false
  end.

(** [a || b] on string-or-undefined values. *)
Definition orElse (a b : option string) : option string :=
  if truthy a then a else b.

(** String conversion inside a [+] concatenation. *)
Definition toStr (o : option string) : string :=
  match o with
  | Some s => s
  | None => "undefined"
  end.

(** [o === s] for a string-or-undefined [o] and a string [s]. *)
Definition strictEq (o : option string) (s : string) : bool :=
  match o with
  | Some t => String.eqb t s
  | None => false
  end.

(** A [Date] is its time value in milliseconds since the epoch;
    [None] is the Invalid Date (time value NaN). *)
Definition Date : Type := option Z.

Definition msPerDay : Z := 86400000.

(** [d.getUTCDay()]: 0 = Sunday .. 6 = Saturday; [None] is NaN. *)
Definition getUTCDay (d : Date) : option Z :=
  match d with
  | Some t => Some ((t / msPerDay + 4) mod 7)%Z
  | None => None
  end.

(** [n === k] for a number-or-NaN [n]. *)
Definition numEq (n : option Z) (k : Z) : bool :=
  match n with
  | Some m => (m =? k)%Z
  | None => false
  end.

(** What a call either returns or throws. *)
Inductive Error : Type :=
| TypeError (what : string)
| PlainError (message : string).

Inductive Completion (A : Type) : Type :=
| Normal (a : A)
| Throw (e : Error).
Arguments Normal {A} a.
Arguments Throw {A} e.

End Js.
Import Js.

(** ** Calendar resources *)

Record EventDateTime : Type := {
  date : option string;
  dateTime : option string
}.

Record Organizer : Type := {
  id : option string;
  email : option string
}.

Record Attendee : Type := {
  self : bool;
  responseStatus : option string
}.

(** The fields of a [Calendar.Event] the script reads or writes, and
    [iCalUID], which it passes through untouched.  A field the provider
    left out is [None]. *)
Record Event : Type := {
  iCalUID : string;
  summary : option string;
  start : option EventDateTime;
  organizer : option Organizer;
  attendees : option (list Attendee);
  eventType : option string;
  outOfOfficeProperties : option string;
  focusTimeProperties : option string
}.

(** ** shouldImportEvent2 *)

Section Filter.

(** [new Date(s)] for a string [s], as the runtime parses it. *)
Variable Date_parse : string -> Date.

Definition newDate (arg : option string) : Date :=
  match arg with
  | Some s => Date_parse s
  | None => None
  end.

Definition shouldImportEvent2 (email_ keyword : string) (event : Event)
  : Completion bool :=
  match summary event with
  | None => Throw (TypeError "event.summary is undefined")
  | Some s =>
    if (indexOf (toLowerCase s) keyword <? 0)%Z then Normal false
    else
      match start event with
      | None => Throw (TypeError "event.start is undefined")
      | Some st =>
        let eventStartDate := newDate (orElse (dateTime st) (date st)) in
        let dayOfWeek := getUTCDay eventStartDate in
        if numEq dayOfWeek 0 || numEq dayOfWeek 6 then Normal false
        else
          match organizer event with
          | None => Normal true
          | Some o =>
            if strictEq (email o) email_ then Normal true
            else
              match attendees event with
              | None => Normal false
              | Some atts =>
                let matching := List.filter self atts in
                match matching with
                | [] => Normal false
                | m :: _ => Normal (strictEq (responseStatus m) "accepted")
                end
              end
          end
      end
  end.

End Filter.

(** ** The hosted services *)

(** The query object [findEvents2] builds for [Calendar.Events.list]. *)
Record Params : Type := {
  q : string;
  timeMin : string;
  timeMax : string;
  showDeleted : bool;
  updatedMin : option string;
  pageToken : option string
}.

(** One page of [Calendar.Events.list]; [items] is always an array. *)
Record Response : Type := {
  items : list Event;
  nextPageToken : option string
}.

(** [params.pageToken = tok]. *)
Definition withPageToken (params : Params) (tok : option string) : Params :=
  {| q := q params; timeMin := timeMin params;
     timeMax := timeMax params; showDeleted := showDeleted params;
     updatedMin := updatedMin params; pageToken := tok |}.

(** A call to the Calendar service, with what came back: the trace of
    these calls is what the script does to the outside. *)
Inductive Call : Type :=
| ListCall (calendarId : string) (params : Params) (result : string + Response)
| ImportCall (event : Event) (calendarId : string) (failure : option string).

(** The services' behaviour.  A Calendar call may answer differently
    each time: its answer is a function of the calls made before it.
    [inl e] and [Some e] are a thrown exception whose [toString()] is
    [e]. *)
Record Platform : Type := {
  Date_parse : string -> Date;
  Date_toString : Z -> string;
  Date_addMonths : Z -> Z -> Z;
  Utilities_formatDate : Date -> string;
  Calendar_Events_list : list Call -> string -> Params -> string + Response;
  Calendar_Events_import : list Call -> Event -> string -> option string
}.

Record Trigger : Type := {
  handlerFunction : string;
  everyHours : Z
}.

Inductive LogEntry : Type :=
| LogImporting (summary_ : string)
| LogImported (count : nat)
| ErrorImporting (e : string)
| ErrorRetrieving (email_ keyword e : string).

(** The state the script reads and writes.  [clock] is the time
    [new Date()] reads, in milliseconds; it moves on while the script
    waits for the Calendar service: [callTime h] is how long the call
    that completes the history [h] took. *)
Record World : Type := {
  trace : list Call;
  console : list LogEntry;
  properties : gmap string string;
  triggers : list Trigger;
  clock : Z;
  callTime : list Call -> Z
}.

Definition record (c : Call) (w : World) : World :=
  {| trace := trace w ++ [c]; console := console w;
     properties := properties w; triggers := triggers w;
     clock := (clock w + callTime w (trace w ++ [c]))%Z;
     callTime := callTime w |}.

Definition log (l : LogEntry) (w : World) : World :=
  {| trace := trace w; console := console w ++ [l];
     properties := properties w; triggers := triggers w; clock := clock w;
     callTime := callTime w |}.

Definition setProperty (k v : string) (w : World) : World :=
  {| trace := trace w; console := console w;
     properties := <[k := v]> (properties w);
     triggers := triggers w; clock := clock w; callTime := callTime w |}.

Definition getProperty (k : string) (w : World) : option string :=
  properties w !! k.

Definition createTrigger (t : Trigger) (w : World) : World :=
  {| trace := trace w; console := console w;
     properties := properties w; triggers := triggers w ++ [t];
     clock := clock w; callTime := callTime w |}.

(** How a run from a world ends: it returns, it throws, or the fuel of
    the pagination loop ran out ([Diverges]). *)
Inductive Outcome (A : Type) : Type :=
| Returns (a : A) (w : World)
| Throws (e : Error) (w : World)
| Diverges.
Arguments Returns {A} a w.
Arguments Throws {A} e w.
Arguments Diverges {A}.

Definition bind {A B : Type} (m : Outcome A) (k : A -> World -> Outcome B)
  : Outcome B :=
  match m with
  | Returns a w => k a w
  | Throws e w => Throws e w
  | Diverges => Diverges
  end.

Notation "'let*' ( x , w ) := m 'in' k" :=
  (bind m (fun x w => k))
  (at level 10, x name, w name, m at level 100, k at level 200).

(** [items.filter(f)] for a callback that may throw: the first throw
    ends the filter. *)
Fixpoint filterC (f : Event -> Completion bool) (l : list Event)
  : Completion (list Event) :=
  match l with
  | [] => Normal []
  | x :: xs =>
    match f x with
    | Throw e => Throw e
    | Normal b =>
      match filterC f xs with
      | Throw e => Throw e
      | Normal r => Normal (if b then x :: r else r)
      end
    end
  end.

(** ** The script *)

Definition KEYWORDS2 : list string :=
  ["pto"; "ooo"; "out of office"; "offline"; "vacation"; "PTO"; "Out of office"].

Definition MONTHS_IN_ADVANCE2 : Z := 3.

Section Script.

Variable P : Platform.

(** The two settings the script ships blank, for the deployer to fill
    in. *)
Variable TEAM_CALENDAR_ID2 : string.
Variable USER_EMAILS2 : list string.

Definition formatDateAsRFC3339_2 (d : Date) : string :=
  Utilities_formatDate P d.

(** Lines 93-105 of [importEvent2]: the event as it is handed to the
    import call. *)
Definition toMirroredEvent (username : string) (event : Event) : Event :=
  let summary' := Some ("[" +:+ username +:+ "] " +:+ toStr (summary event)) in
  let organizer' := Some {| id := Some TEAM_CALENDAR_ID2; email := None |} in
  if negb (strictEq (eventType event) "default") then
    {| iCalUID := iCalUID event; summary := summary';
       start := start event; organizer := organizer';
       attendees := Some [];
       eventType := Some "default";
       outOfOfficeProperties := None;
       focusTimeProperties := None |}
  else
    {| iCalUID := iCalUID event; summary := summary';
       start := start event; organizer := organizer';
       attendees := Some [];
       eventType := eventType event;
       outOfOfficeProperties := outOfOfficeProperties event;
       focusTimeProperties := focusTimeProperties event |}.

Definition importEvent2 (username : string) (event : Event) (w : World)
  : World :=
  let event' := toMirroredEvent username event in
  let w1 := log (LogImporting (toStr (summary event'))) w in
  let r := Calendar_Events_import P (trace w1) event' TEAM_CALENDAR_ID2 in
  let w2 := record (ImportCall event' TEAM_CALENDAR_ID2 r) w1 in
  match r with
  | None => w2
  | Some e => log (ErrorImporting e) w2
  end.

(** The do-while loop of [findEvents2].  [continue] in the catch
    jumps to the loop test with [pageToken] as it was. *)
Fixpoint findEvents2_loop (fuel : nat) (email_ keyword : string)
    (params : Params) (pageToken_ : option string) (events : list Event)
    (w : World) : Outcome (list Event) :=
  match fuel with
  | O => Diverges
  | S fuel' =>
    let params' := withPageToken params pageToken_ in
    let r := Calendar_Events_list P (trace w) email_ params' in
    let w1 := record (ListCall email_ params' r) w in
    match r with
    | inl e =>
      let w2 := log (ErrorRetrieving email_ keyword e) w1 in
      if truthy pageToken_
      then findEvents2_loop fuel' email_ keyword params' pageToken_ events w2
      else Returns events w2
    | inr response =>
      match filterC (shouldImportEvent2 (Date_parse P) email_ keyword)
                    (items response) with
      | Throw e => Throws e w1
      | Normal kept =>
        let events' := events ++ kept in
        let pageToken' := nextPageToken response in
        if truthy pageToken'
        then findEvents2_loop fuel' email_ keyword params' pageToken' events' w1
        else Returns events' w1
      end
    end
  end.

(** The query object of [findEvents2], with its page token. *)
Definition queryParams (keyword : string) (start_ end_ : Date)
    (optSince : option Date) (pageToken_ : option string) : Params :=
  {| q := keyword;
     timeMin := formatDateAsRFC3339_2 start_;
     timeMax := formatDateAsRFC3339_2 end_;
     showDeleted := true;
     updatedMin :=
       match optSince with
       | Some d => Some (formatDateAsRFC3339_2 d)
       | None => None
       end;
     pageToken := pageToken_ |}.

Definition findEvents2 (fuel : nat) (email_ keyword : string)
    (start_ end_ : Date) (optSince : option Date) (w : World)
  : Outcome (list Event) :=
  let params := queryParams keyword start_ end_ optSince None in
  findEvents2_loop fuel email_ keyword params None [] w.

(** [events.forEach] in [sync2]: import, then count. *)
Fixpoint sync2_events (username : string) (events : list Event)
    (count : nat) (w : World) : nat * World :=
  match events with
  | [] => (count, w)
  | event :: rest =>
    sync2_events username rest (S count) (importEvent2 username event w)
  end.

(** [KEYWORDS2.forEach] in [sync2]. *)
Fixpoint sync2_keywords (fuel : nat) (email_ username : string)
    (keywords : list string) (today maxDate : Date) (lastRun : option Date)
    (count : nat) (w : World) : Outcome nat :=
  match keywords with
  | [] => Returns count w
  | keyword :: rest =>
    let* (events, w1) :=
      findEvents2 fuel email_ keyword today maxDate lastRun w in
    let (count', w2) := sync2_events username events count w1 in
    sync2_keywords fuel email_ username rest today maxDate lastRun count' w2
  end.

(** [USER_EMAILS2.forEach] in [sync2]. *)
Fixpoint sync2_users (fuel : nat) (emails keywords : list string)
    (today maxDate : Date) (lastRun : option Date)
    (count : nat) (w : World) : Outcome nat :=
  match emails with
  | [] => Returns count w
  | email_ :: rest =>
    let username := splitAt0 email_ in
    let* (count', w1) :=
      sync2_keywords fuel email_ username keywords today maxDate lastRun
                     count w in
    sync2_users fuel rest keywords today maxDate lastRun count' w1
  end.

(** [lastRun] as [sync2] reads it: [null] when the property is
    missing, else the date it parses to. *)
Definition lastRunDate (w : World) : option Date :=
  let lastRun := getProperty "lastRun" w in
  if truthy lastRun then Some (newDate (Date_parse P) lastRun) else None.

Definition sync2 (fuel : nat) (w : World) : Outcome unit :=
  let today := clock w in
  let maxDate := Date_addMonths P (clock w) MONTHS_IN_ADVANCE2 in
  let lastRun := lastRunDate w in
  let* (count, w1) :=
    sync2_users fuel USER_EMAILS2 KEYWORDS2 (Some today) (Some maxDate)
                lastRun 0 w in
  Returns tt
    (log (LogImported count)
         (setProperty "lastRun" (Date_toString P today) w1)).

Definition hourlySync2 : Trigger :=
  {| handlerFunction := "sync2"; everyHours := 1 |}.

Definition setup2 (fuel : nat) (w : World) : Outcome unit :=
  if (0 <? length (triggers w))%nat then
    Throws (PlainError "Triggers are already setup.") w
  else
    sync2 fuel (createTrigger hourlySync2 w).

End Script.

(** ** A concrete platform, for running the script on examples *)

Module Sample.

Definition digit (c : ascii) : option Z :=
  let n := nat_of_ascii c in
  if (48 <=? n)%nat && (n <=? 57)%nat then Some (Z.of_nat (n - 48)) else None.

(** The number written by the first [n] characters of [s], all of them
    digits, and the rest of [s]. *)
Fixpoint number (n : nat) (acc : Z) (s : string) : option (Z * string) :=
  match n with
  | O => Some (acc, s)
  | S n' =>
    match s with
    | String c s' =>
      match digit c with
      | Some d => number n' (10 * acc + d)%Z s'
      | None => None
      end
    | EmptyString => None
    end
  end.

Definition expect (c : ascii) (s : string) : option string :=
  match s with
  | String c' s' => if Ascii.eqb c c' then Some s' else None
  | EmptyString => None
  end.

(** Days from 1970-01-01 to the civil date [y]-[m]-[d]. *)
Definition daysFromCivil (y m d : Z) : Z :=
  let y' := if (m <=? 2)%Z then (y - 1)%Z else y in
  let era := (y' / 400)%Z in
  let yoe := (y' - era * 400)%Z in
  let mp := ((m + 9) mod 12)%Z in
  let doy := ((153 * mp + 2) / 5 + d - 1)%Z in
  let doe := (yoe * 365 + yoe / 4 - yoe / 100 + doy)%Z in
  (era * 146097 + doe - 719468)%Z.

Definition offset (s : string) : option Z :=
  match s with
  | "Z" => Some 0%Z
  | String sign s1 =>
    match number 2 0 s1 with
    | Some (hh, s2) =>
      match expect ":" s2 with
      | Some s3 =>
        match number 2 0 s3 with
        | Some (mm, "") =>
          let ms := ((hh * 60 + mm) * 60000)%Z in
          if Ascii.eqb sign "+" then Some ms
          else if Ascii.eqb sign "-" then Some (- ms)%Z
          else None
        | _ => None
        end
      | None => None
      end
    | None => None
    end
  | EmptyString => None
  end.

(** [new Date(s)] on the two forms the Calendar service sends:
    "YYYY-MM-DD" (midnight UTC) and "YYYY-MM-DDTHH:MM:SS" followed by
    "Z" or a "+HH:MM" / "-HH:MM" offset.  Any other string is taken
    as an Invalid Date. *)
Definition parse (s : string) : Date :=
  match number 4 0 s with
  | Some (y, s1) =>
    match expect "-" s1 with
    | Some s2 =>
      match number 2 0 s2 with
      | Some (m, s3) =>
        match expect "-" s3 with
        | Some s4 =>
          match number 2 0 s4 with
          | Some (d, "") => Some (daysFromCivil y m d * msPerDay)%Z
          | Some (d, String "T" s5) =>
            match number 2 0 s5 with
            | Some (hh, s6) =>
              match expect ":" s6 with
              | Some s7 =>
                match number 2 0 s7 with
                | Some (mi, s8) =>
                  match expect ":" s8 with
                  | Some s9 =>
                    match number 2 0 s9 with
                    | Some (ss, s10) =>
                      match offset s10 with
                      | Some off =>
                        Some (daysFromCivil y m d * msPerDay
                              + ((hh * 60 + mi) * 60 + ss) * 1000 - off)%Z
                      | None => None
                      end
                    | None => None
                    end
                  | None => None
                  end
                | None => None
                end
              | None => None
              end
            | None => None
            end
          | _ => None
          end
        | None => None
        end
      | None => None
      end
    | None => None
    end
  | None => None
  end.

(** An event with a title and a start, and nothing else. *)
Definition plain (uid title startDate : string) : Event :=
  {| iCalUID := uid; summary := Some title;
     start := Some {| date := Some startDate; dateTime := None |};
     organizer := None; attendees := None; eventType := Some "default";
     outOfOfficeProperties := None; focusTimeProperties := None |}.

Definition organizedBy (who : string) (atts : option (list Attendee))
    (e : Event) : Event :=
  {| iCalUID := iCalUID e; summary := summary e; start := start e;
     organizer := Some {| id := None; email := Some who |};
     attendees := atts; eventType := eventType e;
     outOfOfficeProperties := outOfOfficeProperties e;
     focusTimeProperties := focusTimeProperties e |}.

Definition noSummary (e : Event) : Event :=
  {| iCalUID := iCalUID e; summary := None; start := start e;
     organizer := organizer e; attendees := attendees e;
     eventType := eventType e;
     outOfOfficeProperties := outOfOfficeProperties e;
     focusTimeProperties := focusTimeProperties e |}.

Definition me (status : string) : Attendee :=
  {| self := true; responseStatus := Some status |}.

Definition other (status : string) : Attendee :=
  {| self := false; responseStatus := Some status |}.

(** The events of the spec's scenario for bob@example.com, and two
    more. *)
Definition bob : string := "bob@example.com".

Definition teamPTO_tuesday : Event := plain "uid-1" "Team PTO" "2026-11-03".

Definition teamPTO_saturday : Event :=
  organizedBy bob (Some [me "accepted"])
    (plain "uid-3" "Team PTO" "2026-11-07").

Definition bobOOO_tuesday : Event :=
  organizedBy bob None (plain "uid-4" "Bob OOO next week" "2026-11-10").

Definition offsite_declined : Event :=
  organizedBy "carol@example.com" (Some [other "accepted"; me "declined"])
    (plain "uid-2" "Offsite vacation" "2026-11-04").

Definition offsite_accepted : Event :=
  organizedBy "carol@example.com" (Some [other "declined"; me "accepted"])
    (plain "uid-5" "Offsite vacation" "2026-11-04").

Definition ptoVacation : Event :=
  plain "uid-6" "PTO vacation" "2026-11-05".

Definition untitled : Event :=
  noSummary (plain "uid-7" "" "2026-11-06").

(** Two events someone else organised: one that carries two entries
    marked [self], the first declined and the second accepted, and one
    titled "Team PTO" that bob accepted. *)
Definition offsite_answered_twice : Event :=
  organizedBy "carol@example.com" (Some [me "declined"; me "accepted"])
    (plain "uid-8" "Offsite vacation" "2026-11-04").

Definition teamPTO_invited : Event :=
  organizedBy "carol@example.com" (Some [me "accepted"])
    (plain "uid-9" "Team PTO" "2026-11-03").

Definition bobsCalendar : list Event :=
  [teamPTO_tuesday; teamPTO_saturday; bobOOO_tuesday; offsite_declined;
   offsite_accepted; ptoVacation].

Definition decimal (z : Z) : string := NilZero.string_of_int (Z.to_int z).

(** The provider's full-text search, on the summary only and ignoring
    case. *)
Definition search (keyword : string) (calendar : list Event) : list Event :=
  List.filter
    (fun e => (0 <=? indexOf (toLowerCase (toStr (summary e)))
                             (toLowerCase keyword))%Z)
    calendar.

Definition onePage (l : list Event) : string + Response :=
  inr {| items := l; nextPageToken := None |}.

(** A provider that lists bob's calendar in one page per query. *)
Definition listBob (_ : list Call) (u : string) (p : Params)
  : string + Response :=
  if String.eqb u bob then onePage (search (q p) bobsCalendar)
  else inl "Exception: Not Found".

(** The same calendar in pages of one query result each: the token
    is the number of events already sent. *)
Definition pageFrom (n : nat) (l : list Event) : string + Response :=
  match skipn n l with
  | [] => onePage []
  | [e] => onePage [e]
  | e :: _ => inr {| items := [e];
                     nextPageToken := Some (decimal (Z.of_nat (S n))) |}
  end.

Definition tokenIndex (tok : option string) : option nat :=
  match tok with
  | None => Some 0%nat
  | Some "1" => Some 1%nat
  | Some "2" => Some 2%nat
  | Some "3" => Some 3%nat
  | Some _ => None
  end.

Definition listBobPaged (_ : list Call) (u : string) (p : Params)
  : string + Response :=
  if String.eqb u bob then
    match tokenIndex (pageToken p) with
    | Some n => pageFrom n (search (q p) bobsCalendar)
    | None => inl "Exception: Invalid page token"
    end
  else inl "Exception: Not Found".

(** As [listBobPaged], but every request for a second page throws. *)
Definition listBobStuck (hist : list Call) (u : string) (p : Params)
  : string + Response :=
  if truthy (pageToken p) then inl "Exception: Service unavailable"
  else listBobPaged hist u p.

(** A provider whose answer to the query "ooo" holds an event without
    a title. *)
Definition listUntitled (hist : list Call) (u : string) (p : Params)
  : string + Response :=
  if String.eqb (q p) "ooo" then onePage [bobOOO_tuesday; untitled]
  else listBob hist u p.

(** Every calendar looks like bob's, one page per query. *)
Definition listAnyone (_ : list Call) (_ : string) (p : Params)
  : string + Response :=
  onePage (search (q p) bobsCalendar).

(** As [listBobPaged], but the first request for a later page throws;
    the request made again goes through. *)
Definition listBobHiccup (hist : list Call) (u : string) (p : Params)
  : string + Response :=
  match hist with
  | [ListCall _ _ (inr _)] => inl "Exception: Service unavailable"
  | _ => listBobPaged hist u p
  end.

(** As [listBobPaged], but the second page of the query "ooo" holds
    an event without a title. *)
Definition listUntitledLater (hist : list Call) (u : string) (p : Params)
  : string + Response :=
  if String.eqb (q p) "ooo" then
    match tokenIndex (pageToken p) with
    | Some n => pageFrom n [bobOOO_tuesday; untitled]
    | None => inl "Exception: Invalid page token"
    end
  else listBobPaged hist u p.

(** Every calendar looks like bob's, in pages of one query result
    each; a token that is not "1", "2" or "3" lists nothing. *)
Definition pageIndex (tok : option string) : option nat :=
  match tok with
  | None => Some 0%nat
  | Some s =>
    if String.eqb s "1" then Some 1%nat
    else if String.eqb s "2" then Some 2%nat
    else if String.eqb s "3" then Some 3%nat
    else None
  end.

Definition listAnyonePaged (_ : list Call) (_ : string) (p : Params)
  : string + Response :=
  match pageIndex (pageToken p) with
  | Some n => pageFrom n (search (q p) bobsCalendar)
  | None => onePage []
  end.

(** A bound on the pages that can follow the page a token asks for. *)
Definition pagesLeft (tok : option string) : nat :=
  match pageIndex tok with
  | Some n => (4 - n)%nat
  | None => 0%nat
  end.

Definition importOk (_ : list Call) (_ : Event) (_ : string)
  : option string := None.

(** Imports of "uid-1" and "uid-6" throw. *)
Definition importFlaky (_ : list Call) (e : Event) (_ : string)
  : option string :=
  if String.eqb (iCalUID e) "uid-1" || String.eqb (iCalUID e) "uid-6"
  then Some "Exception: API call to calendar.events.import failed"
  else None.

(** The civil date (year, month, day) that is [z] days after
    1970-01-01. *)
Definition civilFromDays (z : Z) : Z * Z * Z :=
  let z' := (z + 719468)%Z in
  let era := (z' / 146097)%Z in
  let doe := (z' - era * 146097)%Z in
  let yoe := ((doe - doe / 1460 + doe / 36524 - doe / 146096) / 365)%Z in
  let doy := (doe - (365 * yoe + yoe / 4 - yoe / 100))%Z in
  let mp := ((5 * doy + 2) / 153)%Z in
  let d := (doy - (153 * mp + 2) / 5 + 1)%Z in
  let m := if (mp <? 10)%Z then (mp + 3)%Z else (mp - 9)%Z in
  let y := (yoe + era * 400)%Z in
  (if (m <=? 2)%Z then (y + 1)%Z else y, m, d).

Definition pad2 (n : Z) : string :=
  if (n <? 10)%Z then "0" +:+ decimal n else decimal n.

Definition pad4 (n : Z) : string :=
  if (n <? 100)%Z then "00" +:+ pad2 n
  else if (n <? 1000)%Z then "0" +:+ decimal n
  else decimal n.

(** The time value [t] written "YYYY-MM-DDTHH:MM:SS" in UTC, whole
    seconds, followed by [zone]. *)
Definition iso (zone : string) (t : Z) : string :=
  let '(y, m, d) := civilFromDays (t / msPerDay) in
  let s := ((t mod msPerDay) / 1000)%Z in
  pad4 y +:+ "-" +:+ pad2 m +:+ "-" +:+ pad2 d +:+ "T"
  +:+ pad2 (s / 3600) +:+ ":" +:+ pad2 ((s / 60) mod 60) +:+ ":"
  +:+ pad2 (s mod 60) +:+ zone.

(** Dates print to the second, in a form [parse] reads back, and a
    month is thirty days. *)
Definition platform
    (list_ : list Call -> string -> Params -> string + Response)
    (import_ : list Call -> Event -> string -> option string) : Platform :=
  {| Date_parse := parse;
     Date_toString := iso "Z";
     Date_addMonths := fun t n => (t + n * 30 * msPerDay)%Z;
     Utilities_formatDate :=
       fun d => match d with Some t => iso "+0000" t | None => "NaN" end;
     Calendar_Events_list := list_;
     Calendar_Events_import := import_ |}.

Definition team : string := "team@group.calendar.google.com".

(** A fresh project on 2026-11-02 at midnight UTC; every Calendar call
    takes a quarter of a second. *)
Definition fresh : World :=
  {| trace := []; console := []; properties := ∅; triggers := [];
     clock := 1793577600000; callTime := fun _ => 250%Z |}.

(** The world [w] some time later: the clock has moved on, nothing
    else has changed. *)
Definition later (ms : Z) (w : World) : World :=
  {| trace := trace w; console := console w; properties := properties w;
     triggers := triggers w; clock := (clock w + ms)%Z;
     callTime := callTime w |}.

End Sample.

(** ** Vocabulary of the statements *)

(** [k] occurs in [s]. *)
Definition contains (s k : string) : Prop :=
  exists pre post, s = pre +:+ k +:+ post.

(** [k] occurs in [s] when case is ignored on both sides. *)
Definition containsIgnoringCase (s k : string) : Prop :=
  contains (toLowerCase s) (toLowerCase k).

(** The UTC day of the week of the event's start, as
    [shouldImportEvent2] computes it. *)
Definition startUTCDay (parse : string -> Date) (event : Event) : option Z :=
  match start event with
  | Some st => getUTCDay (newDate parse (orElse (dateTime st) (date st)))
  | None => None
  end.

Definition isWeekday (d : option Z) : Prop :=
  exists n, d = Some n /\ (1 <= n <= 5)%Z.

Definition isWeekend (d : option Z) : Prop :=
  d = Some 0%Z \/ d = Some 6%Z.

(** [a] is the first entry of [atts] marked [self]. *)
Definition firstSelf (atts : list Attendee) (a : Attendee) : Prop :=
  exists before after,
    atts = before ++ a :: after
    /\ (forall b, In b before -> self b = false)
    /\ self a = true.

(** What is left of the decision of [shouldImportEvent2] once the
    keyword and the weekday rules have let the event through. *)
Definition ownerOrAccepted (email_ : string) (event : Event) : bool :=
  match organizer event with
  | None => true
  | Some o =>
    if strictEq (email o) email_ then true
    else
      match attendees event with
      | None => false
      | Some atts =>
        match List.filter self atts with
        | [] => false
        | m :: _ => strictEq (responseStatus m) "accepted"
        end
      end
  end.

(** The event [shouldImportEvent2] returns [true] for. *)
Definition keep (parse : string -> Date) (email_ keyword : string)
    (event : Event) : bool :=
  match shouldImportEvent2 parse email_ keyword event with
  | Normal true => true
  | _ => false
  end.

(** An event the filter does not fault on. *)
Definition wellFormed (event : Event) : Prop :=
  summary event <> None /\ start event <> None.

(** What a trace says was handed to [Calendar.Events.import], in call
    order; which of those calls threw, with their messages; and which
    went through. *)
Definition attempted (t : list Call) : list Event :=
  flat_map (fun c => match c with
                     | ImportCall e _ _ => [e]
                     | ListCall _ _ _ => []
                     end) t.

Definition failureMessages (t : list Call) : list string :=
  flat_map (fun c => match c with
                     | ImportCall _ _ (Some e) => [e]
                     | _ => []
                     end) t.

Definition succeeded (t : list Call) : list Event :=
  flat_map (fun c => match c with
                     | ImportCall e _ None => [e]
                     | _ => []
                     end) t.

(** The events of the pages a trace received that pass
    [shouldImportEvent2] for the calendar and keyword of their query,
    each with the calendar it was listed from, in the order received. *)
Definition selected (parse : string -> Date) (t : list Call)
  : list (string * Event) :=
  flat_map (fun c => match c with
                     | ListCall u p (inr r) =>
                       map (pair u)
                           (List.filter (keep parse u (q p)) (items r))
                     | _ => []
                     end) t.

(** The first-page queries of a trace: calendar and keyword. *)
Definition queries (t : list Call) : list (string * string) :=
  flat_map (fun c => match c with
                     | ListCall u p _ =>
                       if truthy (pageToken p) then [] else [(u, q p)]
                     | ImportCall _ _ _ => []
                     end) t.

(** The messages of the import errors a console shows. *)
Definition importErrors (l : list LogEntry) : list string :=
  flat_map (fun x => match x with
                     | ErrorImporting e => [e]
                     | _ => []
                     end) l.

(** The time the calls [t] took, made after the history [h]. *)
Fixpoint elapsed (callTime_ : list Call -> Z) (h t : list Call) : Z :=
  match t with
  | [] => 0%Z
  | c :: t' =>
    (callTime_ (h ++ [c]) + elapsed callTime_ (h ++ [c]) t')%Z
  end.

(** From [w] to [w'] the script made the calls [t] and logged [l], and
    touched neither the properties nor the triggers; the clock moved on
    by the time the calls took. *)
Definition grows (w w' : World) (t : list Call) (l : list LogEntry) : Prop :=
  trace w' = trace w ++ t /\ console w' = console w ++ l
  /\ properties w' = properties w /\ triggers w' = triggers w
  /\ clock w' = (clock w + elapsed (callTime w) (trace w) t)%Z
  /\ callTime w' = callTime w.

(** The world a run ends in, when it ends. *)
Definition finalWorld {A : Type} (o : Outcome A) : option World :=
  match o with
  | Returns _ w => Some w
  | Throws _ w => Some w
  | Diverges => None
  end.

(** The event the script hands to the import call for a selected
    event: the transform, under the name fragment of the calendar the
    event was listed from. *)
Definition mirrored (TEAM : string) (ue : string * Event) : Event :=
  toMirroredEvent TEAM (splitAt0 (fst ue)) (snd ue).

(** Every (user, keyword) pairing, users outermost. *)
Definition pairings (users keywords : list string) : list (string * string) :=
  flat_map (fun u => map (pair u) keywords) users.

(** Reads that let every query finish: a list call throws on first
    pages only, every listed event has a summary and a start, and each
    continuation token is of lower rank than the token it answers. *)
Definition orderlyReads (P : Platform) (rank : option string -> nat) : Prop :=
  forall hist u params,
    match Calendar_Events_list P hist u params with
    | inl _ => truthy (pageToken params) = false
    | inr r =>
      Forall wellFormed (items r)
      /\ (truthy (nextPageToken r) = true ->
          (rank (nextPageToken r) < rank (pageToken params))%nat)
    end.

(** The query object a pass started in [w] sends for a keyword and a
    page token. *)
Definition passQuery (P : Platform) (w : World) (keyword : string)
    (tok : option string) : Params :=
  queryParams P keyword (Some (clock w))
              (Some (Date_addMonths P (clock w) MONTHS_IN_ADVANCE2))
              (lastRunDate P w) tok.

(** The list calls of a trace that threw, and the retrieval errors a
    console shows: calendar, keyword and message. *)
Definition failedReads (t : list Call) : list (string * string * string) :=
  flat_map (fun c => match c with
                     | ListCall u p (inl e) => [(u, q p, e)]
                     | _ => []
                     end) t.

Definition retrievalErrors (l : list LogEntry)
  : list (string * string * string) :=
  flat_map (fun x => match x with
                     | ErrorRetrieving u k e => [(u, k, e)]
                     | _ => []
                     end) l.

(** A call that belongs to the queries of [users] for [keywords] over a
    window and a watermark: a list call on a user's calendar with the
    query object of one of the keywords, or an import into the team
    calendar of the transform of some event under a user's name. *)
Definition queryCall (P : Platform) (TEAM : string)
    (users keywords : list string) (today maxDate : Date)
    (lastRun : option Date) (c : Call) : Prop :=
  match c with
  | ListCall u p _ =>
    In u users
    /\ exists k tok, In k keywords
                     /\ p = queryParams P k today maxDate lastRun tok
  | ImportCall e cal _ =>
    cal = TEAM
    /\ exists u ev, In u users /\ e = toMirroredEvent TEAM (splitAt0 u) ev
  end.

(** A call the filter came through: a page on every event of which
    [shouldImportEvent2], asked for the calendar and the keyword of the
    query, answered [true] or [false].  A list call that threw and an
    import call carry no page. *)
Definition pageFiltered (parse : string -> Date) (c : Call) : Prop :=
  match c with
  | ListCall u p (inr r) =>
    Forall (fun e => exists b, shouldImportEvent2 parse u (q p) e = Normal b)
           (items r)
  | _ => True
  end.

(** The same, decided. *)
Definition pagesFiltered (parse : string -> Date) (t : list Call) : bool :=
  forallb (fun c => match c with
                    | ListCall u p (inr r) =>
                      forallb (fun e =>
                                 match shouldImportEvent2 parse u (q p) e with
                                 | Normal _ => true
                                 | Throw _ => false
                                 end) (items r)
                    | _ => true
                    end) t.

(** A list call on whose page [items.filter] threw [err]. *)
Definition pageFaults (parse : string -> Date) (err : Error) (c : Call)
  : Prop :=
  match c with
  | ListCall u p (inr r) =>
    filterC (shouldImportEvent2 parse u (q p)) (items r) = Throw err
  | _ => False
  end.

(** How a run that started in [w] can end: it returns or throws a
    fault, and every page it received before came through the filter;
    a fault is thrown by the filter on the page of the run's last
    call, and the run stops in the state that call left. *)
Definition runPages {A : Type} (parse : string -> Date) (w : World)
    (o : Outcome A) : Prop :=
  match o with
  | Returns _ w' =>
    exists t l, grows w w' t l /\ Forall (pageFiltered parse) t
  | Throws err w' =>
    exists t0 l w0 c,
      grows w w0 t0 l /\ Forall (pageFiltered parse) t0
      /\ pageFaults parse err c /\ w' = record c w0
  | Diverges => True
  end.

(** The outcome [o] with its final world changed by [f]. *)
Definition inWorld {A : Type} (f : World -> World) (o : Outcome A)
  : Outcome A :=
  match o with
  | Returns a w => Returns a (f w)
  | Throws e w => Throws e (f w)
  | Diverges => Diverges
  end.

(** * Properties *)

(** ** Strings *)

#[local] Arguments String.append !_ _ / : simpl nomatch.

Lemma prefix_spec (k s : string) :
  String.prefix k s = true <-> exists post, s = k +:+ post.
Proof.
  revert s. induction k as [|c k IH]; intros [|d s]; simpl.
  - split; [intros _; now exists "" | intros _; reflexivity].
  - split; [intros _; now exists (String d s) | intros _; reflexivity].
  - split; [discriminate | intros [post H]; discriminate].
  - destruct (ascii_dec c d) as [->|Hne].
    + rewrite IH. split; intros [post H]; exists post.
      * now rewrite H.
      * now inversion H.
    + split; [discriminate | intros [post H]; inversion H; congruence].
Qed.

Lemma indexOfFrom_eq (i : Z) (s k : string) :
  indexOfFrom i s k =
  if String.prefix k s then i
  else match s with
       | EmptyString => (-1)%Z
       | String _ s' => indexOfFrom (i + 1)%Z s' k
       end.
Proof. destruct s; reflexivity. Qed.

Lemma indexOfFrom_found (i : Z) (s k : string) :
  (0 <= i)%Z -> (0 <= indexOfFrom i s k)%Z <-> contains s k.
Proof.
  revert i. induction s as [|c s IH]; intros i Hi; rewrite indexOfFrom_eq.
  - destruct (String.prefix k "") eqn:E.
    + split; [intros _ | lia].
      apply prefix_spec in E as [post E]. now exists "", post.
    + split; [lia |]. intros [pre [post H]].
      destruct pre; [| discriminate]. simpl in H.
      assert (String.prefix k "" = true) by (apply prefix_spec; eauto).
      congruence.
  - destruct (String.prefix k (String c s)) eqn:E.
    + split; [intros _ | lia].
      apply prefix_spec in E as [post E]. now exists "", post.
    + rewrite IH by lia. split.
      * intros [pre [post H]]. exists (String c pre), post. simpl. now rewrite H.
      * intros [pre [post H]]. destruct pre as [|d pre]; simpl in H.
        -- assert (String.prefix k (String c s) = true)
             by (apply prefix_spec; eauto).
           congruence.
        -- inversion H. now exists pre, post.
Qed.

(** [indexOf] finds an occurrence exactly when there is one. *)
Lemma indexOf_found (s k : string) : (0 <= indexOf s k)%Z <-> contains s k.
Proof. apply indexOfFrom_found. lia. Qed.

Lemma indexOf_ltb (s k : string) :
  (indexOf s k <? 0)%Z = false <-> contains s k.
Proof. rewrite Z.ltb_ge. apply indexOf_found. Qed.

Lemma lowerChar_idem (c : ascii) : lowerChar (lowerChar c) = lowerChar c.
Proof. destruct c as [[] [] [] [] [] [] [] []]; reflexivity. Qed.

Lemma toLowerCase_idem (s : string) : toLowerCase (toLowerCase s) = toLowerCase s.
Proof.
  induction s as [|c s IH]; simpl; [reflexivity|].
  now rewrite lowerChar_idem, IH.
Qed.

Lemma toLowerCase_append (a b : string) :
  toLowerCase (a +:+ b) = toLowerCase a +:+ toLowerCase b.
Proof. induction a as [|c a IH]; simpl; [reflexivity | now rewrite IH]. Qed.

Lemma toLowerCase_length (s : string) :
  String.length (toLowerCase s) = String.length s.
Proof. induction s as [|c s IH]; simpl; [reflexivity | now rewrite IH]. Qed.

Lemma append_inj_length (a a' b b' : string) :
  String.length a = String.length a' ->
  a +:+ b = a' +:+ b' -> a = a' /\ b = b'.
Proof.
  revert a'. induction a as [|c a IH]; intros [|c' a'] Hl H;
    simpl in *; try discriminate.
  - now split.
  - inversion H; subst. destruct (IH a') as [-> ->]; auto.
Qed.

(** Whatever occurs in a lower-cased string is itself in lower case. *)
Lemma contains_lower_is_lower (s k : string) :
  contains (toLowerCase s) k -> toLowerCase k = k.
Proof.
  intros [pre [post H]].
  assert (H' := f_equal toLowerCase H).
  rewrite toLowerCase_idem, !toLowerCase_append, H in H'.
  symmetry in H'.
  apply append_inj_length in H' as [_ H']; [| apply toLowerCase_length].
  apply append_inj_length in H' as [H' _]; [| apply toLowerCase_length].
  exact H'.
Qed.

(** A keyword that is not in lower case is found in no summary. *)
Lemma indexOf_lower_misses_upper (s k : string) :
  toLowerCase k <> k -> (indexOf (toLowerCase s) k <? 0)%Z = true.
Proof.
  intros Hk. destruct (indexOf (toLowerCase s) k <? 0)%Z eqn:E; [reflexivity|].
  apply indexOf_ltb, contains_lower_is_lower in E. contradiction.
Qed.

(** The keyword rule of the filter, in words: the summary contains the
    keyword when case is ignored, and the keyword is in lower case. *)
Lemma keyword_rule_iff (s k : string) :
  contains (toLowerCase s) k
  <-> toLowerCase k = k /\ containsIgnoringCase s k.
Proof.
  unfold containsIgnoringCase. split.
  - intros H. pose proof (contains_lower_is_lower s k H) as Hk.
    rewrite Hk. auto.
  - intros [Hk H]. now rewrite Hk in H.
Qed.

(** ** The sample date parser *)

Example sample_parse_epoch : Sample.parse "1970-01-01" = Some 0%Z.
Proof. reflexivity. Qed.

Example sample_parse_monday :
  getUTCDay (Sample.parse "2026-11-02") = Some 1%Z.
Proof. vm_compute. reflexivity. Qed.

Example sample_parse_offset :
  Sample.parse "2026-11-06T23:30:00-05:00" = Sample.parse "2026-11-07T04:30:00Z"
  /\ getUTCDay (Sample.parse "2026-11-06T23:30:00-05:00") = Some 6%Z.
Proof. vm_compute. split; reflexivity. Qed.

Example sample_parse_invalid : Sample.parse "next tuesday" = None.
Proof. reflexivity. Qed.

(** ** The filter *)

Lemma strictEq_true (o : option string) (s : string) :
  strictEq o s = true <-> o = Some s.
Proof.
  destruct o as [t|]; simpl.
  - rewrite String.eqb_eq. split; congruence.
  - split; discriminate.
Qed.

Lemma strictEq_false (o : option string) (s : string) :
  strictEq o s = false <-> o <> Some s.
Proof.
  rewrite <- strictEq_true. destruct (strictEq o s); split; congruence.
Qed.

Lemma weekday_not_rejected (d : option Z) :
  isWeekday d -> numEq d 0 || numEq d 6 = false.
Proof.
  intros [n [-> Hn]]. simpl.
  destruct (Z.eqb_spec n 0), (Z.eqb_spec n 6); simpl; try reflexivity; lia.
Qed.

Lemma weekend_rejected (d : option Z) :
  isWeekend d -> numEq d 0 || numEq d 6 = true.
Proof. intros [-> | ->]; reflexivity. Qed.

Section FilterFacts.

Variable parse : string -> Date.
Variables email_ keyword : string.

Lemma shouldImportEvent2_past_gates (event : Event) (s : string) :
  summary event = Some s ->
  contains (toLowerCase s) keyword ->
  isWeekday (startUTCDay parse event) ->
  shouldImportEvent2 parse email_ keyword event
  = Normal (ownerOrAccepted email_ event).
Proof.
  intros Hs Hk Hd. unfold shouldImportEvent2, ownerOrAccepted.
  rewrite Hs. apply indexOf_ltb in Hk. rewrite Hk.
  unfold startUTCDay in Hd. destruct (start event) as [st|].
  - rewrite (weekday_not_rejected _ Hd).
    destruct (organizer event) as [o|]; [|reflexivity].
    destruct (strictEq (email o) email_); [reflexivity|].
    destruct (attendees event) as [atts|]; [|reflexivity].
    destruct (List.filter self atts); reflexivity.
  - destruct Hd as [n [Hn _]]. discriminate.
Qed.

(** The user's own event passes, when the keyword is one the match
    can find. *)
Lemma shouldImportEvent2_owner (event : Event) (s : string) :
  summary event = Some s ->
  contains (toLowerCase s) keyword ->
  isWeekday (startUTCDay parse event) ->
  (organizer event = None
   \/ exists o, organizer event = Some o /\ email o = Some email_) ->
  shouldImportEvent2 parse email_ keyword event = Normal true.
Proof.
  intros Hs Hk Hd Ho.
  rewrite (shouldImportEvent2_past_gates event s Hs Hk Hd).
  unfold ownerOrAccepted. destruct Ho as [-> | [o [-> Ho]]]; [reflexivity|].
  apply strictEq_true in Ho. now rewrite Ho.
Qed.

(** With a keyword in lower case, "found in the lower-cased summary"
    is "contained ignoring case". *)
Lemma shouldImportEvent2_owner_lower_keyword (event : Event) (s : string) :
  toLowerCase keyword = keyword ->
  summary event = Some s ->
  containsIgnoringCase s keyword ->
  isWeekday (startUTCDay parse event) ->
  (organizer event = None
   \/ exists o, organizer event = Some o /\ email o = Some email_) ->
  shouldImportEvent2 parse email_ keyword event = Normal true.
Proof.
  intros Hl Hs Hk. unfold containsIgnoringCase in Hk. rewrite Hl in Hk.
  now apply shouldImportEvent2_owner with s.
Qed.

(** A keyword with an upper-case letter lets no event through. *)
Lemma shouldImportEvent2_upper_keyword (event : Event) :
  toLowerCase keyword <> keyword ->
  shouldImportEvent2 parse email_ keyword event <> Normal true.
Proof.
  intros Hk. unfold shouldImportEvent2.
  destruct (summary event) as [s|]; [|discriminate].
  rewrite (indexOf_lower_misses_upper s keyword Hk). discriminate.
Qed.

Lemma filter_self_none (atts : list Attendee) :
  (forall a, In a atts -> self a = false) -> List.filter self atts = [].
Proof.
  intros H. induction atts as [|x atts IH]; simpl; [reflexivity|].
  rewrite (H x) by now left. apply IH. intros a Ha. apply H. now right.
Qed.

(** The first entry marked [self] is the head of
    [attendees.filter(attendee => attendee.self)]. *)
Lemma firstSelf_filter (atts : list Attendee) (a : Attendee) :
  firstSelf atts a -> exists rest, List.filter self atts = a :: rest.
Proof.
  intros (before & after & -> & Hb & Ha).
  exists (List.filter self after).
  rewrite List.filter_app, (filter_self_none before Hb). simpl.
  now rewrite Ha.
Qed.

Lemma filter_self_head (atts : list Attendee) (a : Attendee)
    (rest : list Attendee) :
  List.filter self atts = a :: rest -> firstSelf atts a.
Proof.
  induction atts as [|x atts IH]; simpl; [discriminate|].
  destruct (self x) eqn:Hx.
  - intros H. injection H as <- _. exists [], atts. repeat split; auto.
    intros b [].
  - intros H. destruct (IH H) as (before & after & -> & Hb & Ha).
    exists (x :: before), after. repeat split; auto.
    intros b [<- | Hin]; auto.
Qed.

(** For an event someone else organised, the decision is the answer of
    the first attendee entry marked [self]. *)
Lemma shouldImportEvent2_first_self
    (event : Event) (s : string) (o : Organizer) (atts : list Attendee) :
  summary event = Some s ->
  contains (toLowerCase s) keyword ->
  isWeekday (startUTCDay parse event) ->
  organizer event = Some o -> email o <> Some email_ ->
  attendees event = Some atts ->
  shouldImportEvent2 parse email_ keyword event
  = Normal match List.filter self atts with
           | [] => false
           | m :: _ => strictEq (responseStatus m) "accepted"
           end.
Proof.
  intros Hs Hk Hd Ho Hne Ha.
  rewrite (shouldImportEvent2_past_gates event s Hs Hk Hd).
  unfold ownerOrAccepted. rewrite Ho, Ha.
  apply strictEq_false in Hne. now rewrite Hne.
Qed.

End FilterFacts.

(** C1, as the code runs it on the configured keyword "PTO".  The claim
    promises [true] for an owner's weekday event whose summary contains
    the keyword when case is ignored, for every configured keyword,
    "PTO" included.  The script lower-cases the summary and not the
    keyword, so with the keyword "PTO" the event "Team PTO", on a
    Tuesday and without an organizer, is turned down. *)
Theorem shouldImportEvent2_PTO_keyword_rejected :
  let event := Sample.teamPTO_tuesday in
  In "PTO" KEYWORDS2
  /\ containsIgnoringCase "Team PTO" "PTO"
  /\ isWeekday (startUTCDay Sample.parse event)
  /\ organizer event = None
  /\ shouldImportEvent2 Sample.parse Sample.bob "PTO" event
     = Normal false.
Proof.
  cbv zeta. split; [| split; [| split; [| split]]].
  - unfold KEYWORDS2. simpl. tauto.
  - exists "team ", "". reflexivity.
  - exists 2%Z. split; [vm_compute; reflexivity | lia].
  - reflexivity.
  - vm_compute. reflexivity.
Qed.

(** C2, amended.  An event whose summary contains the keyword when
    case is ignored, for a keyword in lower case (the only keywords the
    match of line 170 can find, see [keyword_rule_iff]), on a UTC
    weekday, organised by someone other than the queried user, is
    accepted exactly when the first attendee entry marked [self] has
    [responseStatus = "accepted"]; it is turned down when the attendees
    are absent, when no entry is marked [self], and when the first
    entry marked [self] answers "needsAction", "declined" or
    "tentative". *)
Theorem shouldImportEvent2_invited
    (parse : string -> Date) (email_ keyword : string)
    (event : Event) (s : string) (o : Organizer) :
  summary event = Some s ->
  containsIgnoringCase s keyword ->
  toLowerCase keyword = keyword ->
  isWeekday (startUTCDay parse event) ->
  organizer event = Some o -> email o <> Some email_ ->
  (shouldImportEvent2 parse email_ keyword event = Normal true
   <-> exists atts a, attendees event = Some atts /\ firstSelf atts a
                      /\ responseStatus a = Some "accepted")
  /\ (shouldImportEvent2 parse email_ keyword event = Normal true
      \/ shouldImportEvent2 parse email_ keyword event = Normal false)
  /\ (attendees event = None ->
      shouldImportEvent2 parse email_ keyword event = Normal false)
  /\ (forall atts, attendees event = Some atts ->
        (forall a, In a atts -> self a = false) ->
        shouldImportEvent2 parse email_ keyword event = Normal false)
  /\ (forall atts a status,
        attendees event = Some atts -> firstSelf atts a ->
        responseStatus a = Some status ->
        In status ["needsAction"; "declined"; "tentative"] ->
        shouldImportEvent2 parse email_ keyword event = Normal false).
Proof.
  intros Hs Hci Hlow Hd Ho Hne.
  assert (Hk : contains (toLowerCase s) keyword)
    by (apply keyword_rule_iff; auto).
  assert (Hnone : attendees event = None ->
                  shouldImportEvent2 parse email_ keyword event = Normal false).
  { intros Ha. rewrite (shouldImportEvent2_past_gates _ _ _ _ _ Hs Hk Hd).
    unfold ownerOrAccepted. rewrite Ho, Ha.
    apply strictEq_false in Hne. now rewrite Hne. }
  assert (Hsome : forall atts, attendees event = Some atts ->
            shouldImportEvent2 parse email_ keyword event
            = Normal match List.filter self atts with
                     | [] => false
                     | m :: _ => strictEq (responseStatus m) "accepted"
                     end).
  { intros atts Ha. now apply shouldImportEvent2_first_self with s o. }
  repeat split.
  - intros Ht. destruct (attendees event) as [atts|] eqn:Ha.
    + rewrite (Hsome atts eq_refl) in Ht.
      destruct (List.filter self atts) as [|m rest] eqn:Hf; [discriminate|].
      exists atts, m. repeat split.
      * now apply filter_self_head with rest.
      * apply strictEq_true. congruence.
    + rewrite (Hnone eq_refl) in Ht. discriminate.
  - intros [atts [a [Ha [Hfirst Hacc]]]].
    rewrite (Hsome atts Ha).
    destruct (firstSelf_filter atts a Hfirst) as [rest ->].
    apply strictEq_true in Hacc. now rewrite Hacc.
  - destruct (attendees event) as [atts|] eqn:Ha.
    + rewrite (Hsome atts eq_refl).
      destruct (List.filter self atts) as [|m rest]; [now right|].
      destruct (strictEq (responseStatus m) "accepted"); [now left | now right].
    + right. now apply Hnone.
  - exact Hnone.
  - intros atts Ha Hno. rewrite (Hsome atts Ha).
    now rewrite (filter_self_none atts Hno).
  - intros atts a status Ha Hfirst Hst Hin3. rewrite (Hsome atts Ha).
    destruct (firstSelf_filter atts a Hfirst) as [rest ->].
    rewrite Hst. simpl in Hin3.
    destruct Hin3 as [<- | [<- | [<- | []]]]; reflexivity.
Qed.

Lemma shouldImportEvent2_invited_witness :
  shouldImportEvent2 Sample.parse Sample.bob "vacation" Sample.offsite_declined
  = Normal false.
Proof.
  refine (proj2 (proj2 (proj2 (proj2
    (shouldImportEvent2_invited Sample.parse Sample.bob "vacation"
       Sample.offsite_declined "Offsite vacation"
       {| id := None; email := Some "carol@example.com" |}
       eq_refl _ eq_refl _ eq_refl _))))
    [Sample.other "accepted"; Sample.me "declined"] (Sample.me "declined")
    "declined" eq_refl _ eq_refl _).
  - exists "offsite ", "". reflexivity.
  - exists 3%Z. split; [vm_compute; reflexivity | lia].
  - discriminate.
  - exists [Sample.other "accepted"], []. repeat split.
    intros b [<- | []]. reflexivity.
  - simpl. tauto.
Defined.

(** C2 as it was worded fails on two events that carol organised for a
    Tuesday and a Wednesday.  "Offsite vacation" carries two entries
    marked [self], declined and then accepted: some entry is marked
    [self] and accepted, and the script, which asks the first such
    entry only, turns the event down.  "Team PTO", which bob accepted,
    contains the configured keyword "PTO" when case is ignored, and is
    turned down as well. *)
Lemma shouldImportEvent2_accepted_entry_turned_down :
  (let event := Sample.offsite_answered_twice in
   In "vacation" KEYWORDS2
   /\ containsIgnoringCase "Offsite vacation" "vacation"
   /\ isWeekday (startUTCDay Sample.parse event)
   /\ (exists o, organizer event = Some o /\ email o <> Some Sample.bob)
   /\ (exists atts a, attendees event = Some atts /\ In a atts
                      /\ self a = true
                      /\ responseStatus a = Some "accepted")
   /\ shouldImportEvent2 Sample.parse Sample.bob "vacation" event
      = Normal false)
  /\ (let event := Sample.teamPTO_invited in
      In "PTO" KEYWORDS2
      /\ containsIgnoringCase "Team PTO" "PTO"
      /\ isWeekday (startUTCDay Sample.parse event)
      /\ (exists o, organizer event = Some o /\ email o <> Some Sample.bob)
      /\ (exists atts a, attendees event = Some atts /\ In a atts
                         /\ self a = true
                         /\ responseStatus a = Some "accepted")
      /\ shouldImportEvent2 Sample.parse Sample.bob "PTO" event
         = Normal false).
Proof.
  cbv zeta. split.
  - split; [unfold KEYWORDS2; simpl; tauto |].
    split; [exists "offsite ", ""; reflexivity |].
    split; [exists 3%Z; split; [vm_compute; reflexivity | lia] |].
    split; [eexists; split; [reflexivity | discriminate] |].
    split; [| vm_compute; reflexivity].
    exists [Sample.me "declined"; Sample.me "accepted"], (Sample.me "accepted").
    repeat split. simpl. tauto.
  - split; [unfold KEYWORDS2; simpl; tauto |].
    split; [exists "team ", ""; reflexivity |].
    split; [exists 2%Z; split; [vm_compute; reflexivity | lia] |].
    split; [eexists; split; [reflexivity | discriminate] |].
    split; [| vm_compute; reflexivity].
    exists [Sample.me "accepted"], (Sample.me "accepted").
    repeat split. simpl. tauto.
Qed.

(** With two entries marked [self] the first one decides: "declined"
    before "accepted" is a rejection. *)
Example first_self_entry_decides :
  shouldImportEvent2 Sample.parse Sample.bob "vacation"
    Sample.offsite_answered_twice
  = Normal false.
Proof. vm_compute. reflexivity. Qed.

(** The spec's scenario for bob: "Team PTO" on a Saturday is turned
    down, and so is "Offsite vacation" on a Wednesday, organised by
    someone else and declined by bob; accepted, it passes. *)
Example bob_scenario :
  shouldImportEvent2 Sample.parse Sample.bob "pto" Sample.teamPTO_saturday
  = Normal false
  /\ shouldImportEvent2 Sample.parse Sample.bob "vacation"
                        Sample.offsite_declined = Normal false
  /\ shouldImportEvent2 Sample.parse Sample.bob "vacation"
                        Sample.offsite_accepted = Normal true.
Proof. vm_compute. repeat split; reflexivity. Qed.

(** C5: an event with a summary whose start falls, as a UTC day of the
    week, on Saturday or Sunday is turned down, whatever its organizer,
    its attendees and their answers. *)
Theorem shouldImportEvent2_weekend
    (parse : string -> Date) (email_ keyword : string)
    (event : Event) (s : string) :
  summary event = Some s ->
  isWeekend (startUTCDay parse event) ->
  shouldImportEvent2 parse email_ keyword event = Normal false.
Proof.
  intros Hs Hd. unfold shouldImportEvent2. rewrite Hs.
  destruct (indexOf (toLowerCase s) keyword <? 0)%Z; [reflexivity|].
  unfold startUTCDay in Hd. destruct (start event) as [st|].
  - now rewrite (weekend_rejected _ Hd).
  - destruct Hd; discriminate.
Qed.

Lemma shouldImportEvent2_weekend_witness :
  summary Sample.teamPTO_saturday = Some "Team PTO"
  /\ isWeekend (startUTCDay Sample.parse Sample.teamPTO_saturday)
  /\ shouldImportEvent2 Sample.parse Sample.bob "pto" Sample.teamPTO_saturday
     = Normal false.
Proof.
  assert (Hd : isWeekend (startUTCDay Sample.parse Sample.teamPTO_saturday)).
  { right. vm_compute. reflexivity. }
  split; [reflexivity | split; [exact Hd |]].
  exact (shouldImportEvent2_weekend Sample.parse Sample.bob "pto"
           Sample.teamPTO_saturday "Team PTO" eq_refl Hd).
Defined.

(** ** Traces *)

Lemma elapsed_app (f : list Call -> Z) (h t1 t2 : list Call) :
  elapsed f h (t1 ++ t2) = (elapsed f h t1 + elapsed f (h ++ t1) t2)%Z.
Proof.
  revert h. induction t1 as [|c t1 IH]; intros h; simpl.
  - now rewrite app_nil_r.
  - rewrite IH, <- app_assoc. simpl. lia.
Qed.

Lemma grows_refl (w : World) : grows w w [] [].
Proof. unfold grows. simpl. rewrite !app_nil_r, Z.add_0_r. auto 10. Qed.

Lemma grows_trans (w1 w2 w3 : World) t1 l1 t2 l2 :
  grows w1 w2 t1 l1 -> grows w2 w3 t2 l2 ->
  grows w1 w3 (t1 ++ t2) (l1 ++ l2).
Proof.
  unfold grows.
  intros (Ht1 & Hl1 & Hp1 & Hg1 & Hc1 & Hd1) (Ht2 & Hl2 & Hp2 & Hg2 & Hc2 & Hd2).
  rewrite Ht2, Hl2, Hp2, Hg2, Hc2, Hd2, Ht1, Hl1, Hp1, Hg1, Hc1, Hd1,
    elapsed_app, !app_assoc, Z.add_assoc.
  auto 10.
Qed.

Lemma grows_record (c : Call) (w : World) : grows w (record c w) [c] [].
Proof.
  unfold grows, record. simpl. rewrite app_nil_r, Z.add_0_r. auto 10.
Qed.

Lemma grows_log (x : LogEntry) (w : World) : grows w (log x w) [] [x].
Proof.
  unfold grows, log. simpl. rewrite app_nil_r, Z.add_0_r. auto 10.
Qed.

Lemma attempted_app t1 t2 : attempted (t1 ++ t2) = attempted t1 ++ attempted t2.
Proof. apply flat_map_app. Qed.

Lemma failureMessages_app t1 t2 :
  failureMessages (t1 ++ t2) = failureMessages t1 ++ failureMessages t2.
Proof. apply flat_map_app. Qed.

Lemma succeeded_app t1 t2 : succeeded (t1 ++ t2) = succeeded t1 ++ succeeded t2.
Proof. apply flat_map_app. Qed.

Lemma selected_app parse t1 t2 :
  selected parse (t1 ++ t2) = selected parse t1 ++ selected parse t2.
Proof. apply flat_map_app. Qed.

Lemma queries_app t1 t2 : queries (t1 ++ t2) = queries t1 ++ queries t2.
Proof. apply flat_map_app. Qed.

Lemma importErrors_app l1 l2 :
  importErrors (l1 ++ l2) = importErrors l1 ++ importErrors l2.
Proof. apply flat_map_app. Qed.

(** Every import call either threw or went through. *)
Lemma attempted_split (t : list Call) :
  length (attempted t) = (length (succeeded t) + length (failureMessages t))%nat.
Proof.
  induction t as [|c t IH]; [reflexivity|].
  change (c :: t) with ([c] ++ t).
  rewrite attempted_app, succeeded_app, failureMessages_app, !length_app, IH.
  destruct c as [u p r | e cal [msg|]]; simpl; lia.
Qed.

(** [filterC] is [filter] when the callback does not throw. *)
Lemma filterC_Normal (f : Event -> Completion bool) (l kept : list Event) :
  filterC f l = Normal kept ->
  kept = List.filter (fun e => match f e with
                               | Normal true => true
                               | _ => false
                               end) l.
Proof.
  revert kept. induction l as [|x l IH]; simpl; intros kept H.
  - now inversion H.
  - destruct (f x) as [b|e]; [|discriminate].
    destruct (filterC f l) as [r|e]; [|discriminate].
    inversion H; subst. rewrite (IH r eq_refl). now destruct b.
Qed.

Lemma filterC_total (f : Event -> Completion bool) (l : list Event) :
  Forall (fun e => exists b, f e = Normal b) l ->
  exists kept, filterC f l = Normal kept.
Proof.
  induction 1 as [|x l [b Hb] _ [kept IH]]; simpl.
  - now exists [].
  - rewrite Hb, IH. eauto.
Qed.

(** The first event the callback throws on ends the filter. *)
Lemma filterC_Throw (f : Event -> Completion bool) (l : list Event) (x : Event)
    (err : Error) :
  In x l -> f x = Throw err -> exists err', filterC f l = Throw err'.
Proof.
  induction l as [|y l IH]; simpl; [contradiction|].
  intros [-> | Hin] Hx.
  - rewrite Hx. eauto.
  - destruct (f y) as [b|e]; [|eauto].
    destruct (IH Hin Hx) as [err' ->]. eauto.
Qed.

(** ** What each part of the script does to the world *)

Section ScriptFacts.

Variable P : Platform.
Variable TEAM : string.
Variable USERS : list string.

Lemma importEvent2_grows (username : string) (event : Event) (w : World) :
  exists r,
    grows w (importEvent2 P TEAM username event w)
      [ImportCall (toMirroredEvent TEAM username event) TEAM r]
      (LogImporting (toStr (summary (toMirroredEvent TEAM username event)))
       :: match r with Some e => [ErrorImporting e] | None => [] end).
Proof.
  unfold importEvent2.
  set (event' := toMirroredEvent TEAM username event).
  set (w1 := log (LogImporting (toStr (summary event'))) w).
  exists (Calendar_Events_import P (trace w1) event' TEAM).
  destruct (Calendar_Events_import P (trace w1) event' TEAM) as [e|].
  - change (LogImporting (toStr (summary event')) :: [ErrorImporting e])
      with (([LogImporting (toStr (summary event'))] ++ []) ++ [ErrorImporting e]).
    change [ImportCall event' TEAM (Some e)]
      with (([] ++ [ImportCall event' TEAM (Some e)]) ++ []).
    eapply grows_trans; [eapply grows_trans |];
      [apply grows_log | apply grows_record | apply grows_log].
  - change [LogImporting (toStr (summary event'))]
      with ([LogImporting (toStr (summary event'))] ++ []).
    change [ImportCall event' TEAM None]
      with ([] ++ [ImportCall event' TEAM None]).
    eapply grows_trans; [apply grows_log | apply grows_record].
Qed.

(** The import loop makes one import call per event, in order, logs
    one error per call that threw, counts every event, and always
    comes back. *)
Lemma sync2_events_spec (username : string) (events : list Event)
    (count : nat) (w : World) :
  exists t l,
    grows w (snd (sync2_events P TEAM username events count w)) t l
    /\ fst (sync2_events P TEAM username events count w)
       = (count + length events)%nat
    /\ attempted t = map (toMirroredEvent TEAM username) events
    /\ selected (Date_parse P) t = []
    /\ queries t = []
    /\ importErrors l = failureMessages t.
Proof.
  revert count w. induction events as [|event rest IH]; intros count w; simpl.
  - exists [], []. split; [apply grows_refl|]. repeat split; auto; lia.
  - destruct (importEvent2_grows username event w) as [r Hg].
    destruct (IH (S count) (importEvent2 P TEAM username event w))
      as (t & l & Hg' & Hc & Ha & Hs & Hq & He).
    eexists _, _. split; [eapply grows_trans; eauto|].
    rewrite Hc, attempted_app, selected_app, queries_app, importErrors_app,
      failureMessages_app, Ha, Hs, Hq, He.
    repeat split; try reflexivity; try lia.
    destruct r; reflexivity.
Qed.

Lemma findEvents2_loop_spec (fuel : nat) (email_ keyword : string)
    (params : Params) (tok : option string) (events : list Event)
    (w : World) :
  q params = keyword ->
  match findEvents2_loop P fuel email_ keyword params tok events w with
  | Returns evs w' =>
    exists t l new,
      grows w w' t l
      /\ attempted t = [] /\ failureMessages t = [] /\ importErrors l = []
      /\ evs = events ++ new
      /\ selected (Date_parse P) t = map (pair email_) new
      /\ queries t = if truthy tok then [] else [(email_, keyword)]
  | Throws _ w' => exists t l, grows w w' t l
  | Diverges => True
  end.
Proof.
  revert params tok events w.
  induction fuel as [|fuel IH]; intros params tok events w Hq; simpl; [exact I|].
  set (params' := withPageToken params tok).
  set (r := Calendar_Events_list P (trace w) email_ params').
  assert (Hq' : q params' = keyword) by exact Hq.
  assert (Hcall : queries [ListCall email_ params' r]
                  = if truthy tok then [] else [(email_, keyword)]).
  { simpl. rewrite Hq. destruct (truthy tok); reflexivity. }
  destruct r as [e | response] eqn:Hr.
  - (* the call threw *)
    set (w2 := log (ErrorRetrieving email_ keyword e)
                   (record (ListCall email_ params' (inl e)) w)).
    assert (Hg : grows w w2 ([ListCall email_ params' (inl e)] ++ [])
                       ([] ++ [ErrorRetrieving email_ keyword e])).
    { eapply grows_trans; [apply grows_record | apply grows_log]. }
    destruct (truthy tok) eqn:Htok.
    + specialize (IH params' tok events w2 Hq').
      destruct (findEvents2_loop P fuel email_ keyword params' tok events w2)
        as [evs w' | err w' |]; [| |exact I].
      * destruct IH as (t & l & new & Hg' & Ha & Hf & He & Hev & Hs & Hqs).
        exists (([ListCall email_ params' (inl e)] ++ []) ++ t),
               (([] ++ [ErrorRetrieving email_ keyword e]) ++ l), new.
        split; [eapply grows_trans; eauto|].
        rewrite !attempted_app, !failureMessages_app, !importErrors_app,
          !selected_app, !queries_app, Ha, Hf, He, Hs, Hqs, Hcall, Htok.
        repeat split; auto.
      * destruct IH as (t & l & Hg'). eexists _, _. eapply grows_trans; eauto.
    + exists ([ListCall email_ params' (inl e)] ++ []),
             ([] ++ [ErrorRetrieving email_ keyword e]), [].
      split; [exact Hg|].
      rewrite !app_nil_r, Hcall. repeat split; auto.
  - (* a page came back *)
    set (w1 := record (ListCall email_ params' (inr response)) w).
    assert (Hg : grows w w1 [ListCall email_ params' (inr response)] [])
      by apply grows_record.
    destruct (filterC (shouldImportEvent2 (Date_parse P) email_ keyword)
                      (items response)) as [kept | err] eqn:Hf.
    + apply filterC_Normal in Hf.
      assert (Hsel : selected (Date_parse P)
                       [ListCall email_ params' (inr response)]
                     = map (pair email_) kept).
      { simpl. rewrite app_nil_r, Hq, Hf. reflexivity. }
      destruct (truthy (nextPageToken response)) eqn:Hnext.
      * specialize (IH params' (nextPageToken response) (events ++ kept) w1 Hq').
        destruct (findEvents2_loop P fuel email_ keyword params'
                    (nextPageToken response) (events ++ kept) w1)
          as [evs w' | err w' |]; [| |exact I].
        -- destruct IH as (t & l & new & Hg' & Ha & Hfm & He & Hev & Hs & Hqs).
           exists ([ListCall email_ params' (inr response)] ++ t),
                  ([] ++ l), (kept ++ new).
           split; [eapply grows_trans; eauto|].
           rewrite attempted_app, failureMessages_app, selected_app,
             queries_app, Ha, Hfm, Hs, Hqs, Hcall, Hsel, Hnext, map_app,
             app_nil_r, Hev, app_assoc.
           repeat split; auto using app_nil_r.
        -- destruct IH as (t & l & Hg'). eexists _, _. eapply grows_trans; eauto.
      * exists [ListCall email_ params' (inr response)], [], kept.
        split; [exact Hg|]. rewrite Hsel, Hcall. repeat split; auto.
    + eexists _, _. exact Hg.
Qed.

Lemma sync2_keywords_spec (fuel : nat) (email_ : string)
    (keywords : list string) (today maxDate : Date) (lastRun : option Date)
    (count : nat) (w : World) :
  match sync2_keywords P TEAM fuel email_ (splitAt0 email_) keywords
                       today maxDate lastRun count w with
  | Returns count' w' =>
    exists t l,
      grows w w' t l
      /\ attempted t = map (mirrored TEAM) (selected (Date_parse P) t)
      /\ importErrors l = failureMessages t
      /\ count' = (count + length (selected (Date_parse P) t))%nat
      /\ queries t = map (pair email_) keywords
  | Throws _ w' => exists t l, grows w w' t l
  | Diverges => True
  end.
Proof.
  revert count w.
  induction keywords as [|keyword rest IH]; intros count w; simpl.
  - exists [], []. split; [apply grows_refl|]. repeat split; auto.
  - unfold findEvents2.
    match goal with
    | |- context [findEvents2_loop P fuel email_ keyword ?ps None [] w] =>
      pose proof (findEvents2_loop_spec fuel email_ keyword ps None [] w
                    eq_refl) as Hfind;
      destruct (findEvents2_loop P fuel email_ keyword ps None [] w)
        as [events w1 | err w1 |]
    end; simpl; [| exact Hfind | exact I].
    destruct Hfind as (t1 & l1 & new & Hg1 & Ha1 & Hf1 & He1 & Hev & Hs1 & Hq1).
    simpl in Hev, Hq1. subst new.
    destruct (sync2_events_spec (splitAt0 email_) events count w1)
      as (t2 & l2 & Hg2 & Hc2 & Ha2 & Hs2 & Hq2 & He2).
    destruct (sync2_events P TEAM (splitAt0 email_) events count w1)
      as [count' w2]. simpl in Hg2, Hc2.
    specialize (IH count' w2).
    destruct (sync2_keywords P TEAM fuel email_ (splitAt0 email_) rest
                today maxDate lastRun count' w2)
      as [count'' w3 | err w3 |]; [| | exact I].
    + destruct IH as (t3 & l3 & Hg3 & Ha3 & He3 & Hc3 & Hq3).
      exists ((t1 ++ t2) ++ t3), ((l1 ++ l2) ++ l3).
      split; [eapply grows_trans; [eapply grows_trans|]; eauto|].
      rewrite !attempted_app, !selected_app, !importErrors_app,
        !failureMessages_app, !queries_app, !map_app, !length_app,
        Ha1, Ha2, Ha3, Hs1, Hs2, He1, He2, He3, Hf1, Hq1, Hq2, Hq3, Hc3, Hc2.
      rewrite !app_nil_r, !length_map, map_map. simpl.
      repeat split; auto; lia.
    + destruct IH as (t3 & l3 & Hg3).
      exists ((t1 ++ t2) ++ t3), ((l1 ++ l2) ++ l3).
      eapply grows_trans; [eapply grows_trans|]; eauto.
Qed.

Lemma sync2_users_spec (fuel : nat) (emails keywords : list string)
    (today maxDate : Date) (lastRun : option Date)
    (count : nat) (w : World) :
  match sync2_users P TEAM fuel emails keywords today maxDate lastRun
                    count w with
  | Returns count' w' =>
    exists t l,
      grows w w' t l
      /\ attempted t = map (mirrored TEAM) (selected (Date_parse P) t)
      /\ importErrors l = failureMessages t
      /\ count' = (count + length (selected (Date_parse P) t))%nat
      /\ queries t = pairings emails keywords
  | Throws _ w' => exists t l, grows w w' t l
  | Diverges => True
  end.
Proof.
  revert count w.
  induction emails as [|email_ rest IH]; intros count w; simpl.
  - exists [], []. split; [apply grows_refl|]. repeat split; auto.
  - pose proof (sync2_keywords_spec fuel email_ keywords today maxDate
                  lastRun count w) as Hk.
    destruct (sync2_keywords P TEAM fuel email_ (splitAt0 email_) keywords
                today maxDate lastRun count w)
      as [count' w1 | err w1 |]; simpl; [| exact Hk | exact I].
    destruct Hk as (t1 & l1 & Hg1 & Ha1 & He1 & Hc1 & Hq1).
    specialize (IH count' w1).
    destruct (sync2_users P TEAM fuel rest keywords today maxDate lastRun
                count' w1)
      as [count'' w2 | err w2 |]; [| | exact I].
    + destruct IH as (t2 & l2 & Hg2 & Ha2 & He2 & Hc2 & Hq2).
      exists (t1 ++ t2), (l1 ++ l2).
      split; [eapply grows_trans; eauto|].
      rewrite !attempted_app, !selected_app, !importErrors_app,
        !failureMessages_app, !queries_app, !map_app, !length_app,
        Ha1, Ha2, He1, He2, Hq1, Hq2, Hc2, Hc1.
      repeat split; auto; lia.
    + destruct IH as (t2 & l2 & Hg2).
      exists (t1 ++ t2), (l1 ++ l2). eapply grows_trans; eauto.
Qed.

(** A pass that returns has: made one first-page query per (user,
    keyword) pairing; handed to the import call the transform of every
    selected event, once, in order; logged each import that threw;
    stored the start time under "lastRun"; and logged the number of
    selected events. *)
Lemma sync2_spec (fuel : nat) (w : World) :
  match sync2 P TEAM USERS fuel w with
  | Returns _ w' =>
    exists t l,
      trace w' = trace w ++ t
      /\ console w' = console w ++ l
                      ++ [LogImported (length (selected (Date_parse P) t))]
      /\ properties w'
         = <["lastRun" := Date_toString P (clock w)]> (properties w)
      /\ triggers w' = triggers w
      /\ clock w' = (clock w + elapsed (callTime w) (trace w) t)%Z
      /\ attempted t = map (mirrored TEAM) (selected (Date_parse P) t)
      /\ importErrors l = failureMessages t
      /\ queries t = pairings USERS KEYWORDS2
  | Throws _ w' => exists t l, grows w w' t l
  | Diverges => True
  end.
Proof.
  unfold sync2.
  match goal with
  | |- context [sync2_users P TEAM fuel USERS KEYWORDS2 ?a ?b ?c 0 w] =>
    pose proof (sync2_users_spec fuel USERS KEYWORDS2 a b c 0 w) as Hu;
    destruct (sync2_users P TEAM fuel USERS KEYWORDS2 a b c 0 w)
      as [count w1 | err w1 |]
  end; simpl; [| exact Hu | exact I].
  destruct Hu as (t & l & (Ht & Hl & Hp & Hg & Hc & _) & Ha & He & Hn & Hq).
  exists t, l. simpl in Hn. subst count.
  rewrite Ht, Hl, Hp, Hg, Hc, app_assoc. repeat split; auto.
Qed.

End ScriptFacts.

(** ** The pages a run receives *)

Lemma shouldImportEvent2_throws_TypeError (parse : string -> Date)
    (email_ keyword : string) (event : Event) (err : Error) :
  shouldImportEvent2 parse email_ keyword event = Throw err ->
  exists what, err = TypeError what.
Proof.
  unfold shouldImportEvent2. intros H.
  destruct (summary event) as [s|]; [|inversion H; eauto].
  destruct (indexOf (toLowerCase s) keyword <? 0)%Z; [discriminate|].
  destruct (start event) as [st|]; [|inversion H; eauto].
  destruct (numEq _ 0 || numEq _ 6); [discriminate|].
  destruct (organizer event) as [o|]; [|discriminate].
  destruct (strictEq (email o) email_); [discriminate|].
  destruct (attendees event) as [atts|]; [|discriminate].
  destruct (List.filter self atts); discriminate.
Qed.

Lemma filterC_throws_TypeError (parse : string -> Date)
    (email_ keyword : string) (l : list Event) (err : Error) :
  filterC (shouldImportEvent2 parse email_ keyword) l = Throw err ->
  exists what, err = TypeError what.
Proof.
  induction l as [|x l IH]; simpl; [discriminate|].
  destruct (shouldImportEvent2 parse email_ keyword x) as [b|e] eqn:Hx.
  - destruct (filterC (shouldImportEvent2 parse email_ keyword) l) as [r|e];
      [discriminate|].
    intros H. inversion H; subst. now apply IH.
  - intros H. inversion H; subst.
    now apply shouldImportEvent2_throws_TypeError in Hx.
Qed.

Lemma filterC_Normal_all (f : Event -> Completion bool)
    (l kept : list Event) :
  filterC f l = Normal kept -> Forall (fun e => exists b, f e = Normal b) l.
Proof.
  revert kept. induction l as [|x l IH]; simpl; intros kept H.
  - constructor.
  - destruct (f x) as [b|e] eqn:Hx; [|discriminate].
    destruct (filterC f l) as [r|e]; [|discriminate].
    constructor; eauto.
Qed.

Lemma pageFaults_not_filtered (parse : string -> Date) (err : Error)
    (c : Call) :
  pageFaults parse err c -> pageFiltered parse c -> False.
Proof.
  destruct c as [u p [e | r] | ev cal res]; simpl; try contradiction.
  intros Hthrow Hall. destruct (filterC_total _ _ Hall) as [kept Hk].
  congruence.
Qed.

Lemma pageFaults_TypeError (parse : string -> Date) (err : Error)
    (c : Call) :
  pageFaults parse err c -> exists what, err = TypeError what.
Proof.
  destruct c as [u p [e | r] | ev cal res]; simpl; try contradiction.
  apply filterC_throws_TypeError.
Qed.

(** A page that holds an event without a summary did not come through
    the filter. *)
Lemma untitled_not_filtered (parse : string -> Date) (u : string)
    (p : Params) (r : Response) (e : Event) :
  In e (items r) -> summary e = None ->
  pageFiltered parse (ListCall u p (inr r)) -> False.
Proof.
  simpl. intros Hin Hsum Hall.
  rewrite List.Forall_forall in Hall. destruct (Hall e Hin) as [b Hb].
  unfold shouldImportEvent2 in Hb. rewrite Hsum in Hb. discriminate.
Qed.

Lemma pagesFiltered_spec (parse : string -> Date) (t : list Call) :
  pagesFiltered parse t = true -> Forall (pageFiltered parse) t.
Proof.
  unfold pagesFiltered. rewrite forallb_forall, List.Forall_forall.
  intros H c Hc. specialize (H c Hc).
  destruct c as [u p [e | r] | ev cal res]; simpl; auto.
  rewrite forallb_forall in H. rewrite List.Forall_forall.
  intros e He. specialize (H e He).
  destruct (shouldImportEvent2 parse u (q p) e) as [b|err]; [eauto|discriminate].
Qed.

Lemma runPages_after {A : Type} (parse : string -> Date) (w w1 : World)
    (t1 : list Call) (l1 : list LogEntry) (o : Outcome A) :
  grows w w1 t1 l1 -> Forall (pageFiltered parse) t1 ->
  runPages parse w1 o -> runPages parse w o.
Proof.
  intros Hg Hall. destruct o as [a w' | err w' |]; simpl; [| |auto].
  - intros (t & l & Hg' & Hall').
    exists (t1 ++ t), (l1 ++ l). split; [eapply grows_trans; eauto|].
    apply List.Forall_app. auto.
  - intros (t0 & l & w0 & c & Hg' & Hall' & Hc & Hw).
    exists (t1 ++ t0), (l1 ++ l), w0, c.
    split; [eapply grows_trans; eauto|].
    split; [apply List.Forall_app; auto | auto].
Qed.

Section Pages.

Variable P : Platform.
Variable TEAM : string.
Variable USERS : list string.

Lemma importEvent2_pages (username : string) (event : Event) (w : World) :
  exists t l,
    grows w (importEvent2 P TEAM username event w) t l
    /\ Forall (pageFiltered (Date_parse P)) t.
Proof.
  destruct (importEvent2_grows P TEAM username event w) as [r Hg].
  eexists _, _. split; [exact Hg|]. constructor; [exact I | constructor].
Qed.

Lemma sync2_events_pages (username : string) (events : list Event)
    (count : nat) (w : World) :
  exists t l,
    grows w (snd (sync2_events P TEAM username events count w)) t l
    /\ Forall (pageFiltered (Date_parse P)) t.
Proof.
  revert count w. induction events as [|event rest IH]; intros count w; simpl.
  - exists [], []. split; [apply grows_refl | constructor].
  - destruct (importEvent2_pages username event w) as (t1 & l1 & Hg1 & Ha1).
    destruct (IH (S count) (importEvent2 P TEAM username event w))
      as (t2 & l2 & Hg2 & Ha2).
    exists (t1 ++ t2), (l1 ++ l2). split; [eapply grows_trans; eauto|].
    apply List.Forall_app. auto.
Qed.

Lemma findEvents2_loop_pages (fuel : nat) (email_ keyword : string)
    (params : Params) (tok : option string) (events : list Event)
    (w : World) :
  q params = keyword ->
  runPages (Date_parse P) w
    (findEvents2_loop P fuel email_ keyword params tok events w).
Proof.
  revert params tok events w.
  induction fuel as [|fuel IH]; intros params tok events w Hq; [exact I|].
  cbn [findEvents2_loop].
  set (params' := withPageToken params tok).
  assert (Hq' : q params' = keyword) by exact Hq.
  destruct (Calendar_Events_list P (trace w) email_ params')
    as [e | response].
  - set (w2 := log (ErrorRetrieving email_ keyword e)
                   (record (ListCall email_ params' (inl e)) w)).
    assert (Hg : grows w w2 ([ListCall email_ params' (inl e)] ++ [])
                       ([] ++ [ErrorRetrieving email_ keyword e])).
    { eapply grows_trans; [apply grows_record | apply grows_log]. }
    assert (Hall : Forall (pageFiltered (Date_parse P))
                          ([ListCall email_ params' (inl e)] ++ [])).
    { constructor; [exact I | constructor]. }
    destruct (truthy tok).
    + eapply runPages_after; eauto.
    + simpl. eauto.
  - set (c := ListCall email_ params' (inr response)).
    assert (Hg : grows w (record c w) [c] []) by apply grows_record.
    destruct (filterC (shouldImportEvent2 (Date_parse P) email_ keyword)
                      (items response)) as [kept | err] eqn:Hf.
    + assert (Hall : Forall (pageFiltered (Date_parse P)) [c]).
      { constructor; [| constructor]. simpl. rewrite Hq.
        now apply filterC_Normal_all with kept. }
      destruct (truthy (nextPageToken response)).
      * eapply runPages_after; eauto.
      * simpl. eauto.
    + simpl. exists [], [], w, c.
      split; [apply grows_refl|]. split; [constructor|].
      split; [| reflexivity]. simpl. rewrite Hq. exact Hf.
Qed.

Lemma sync2_keywords_pages (fuel : nat) (email_ username : string)
    (keywords : list string) (today maxDate : Date) (lastRun : option Date)
    (count : nat) (w : World) :
  runPages (Date_parse P) w
    (sync2_keywords P TEAM fuel email_ username keywords
                    today maxDate lastRun count w).
Proof.
  revert count w.
  induction keywords as [|keyword rest IH]; intros count w; simpl.
  - exists [], []. split; [apply grows_refl | constructor].
  - unfold findEvents2.
    match goal with
    | |- context [findEvents2_loop P fuel email_ keyword ?ps None [] w] =>
      pose proof (findEvents2_loop_pages fuel email_ keyword ps None [] w
                    eq_refl) as Hfind;
      destruct (findEvents2_loop P fuel email_ keyword ps None [] w)
        as [events w1 | err w1 |]
    end; simpl; [| exact Hfind | exact I].
    destruct Hfind as (t1 & l1 & Hg1 & Ha1).
    destruct (sync2_events_pages username events count w1)
      as (t2 & l2 & Hg2 & Ha2).
    destruct (sync2_events P TEAM username events count w1) as [count' w2].
    simpl in Hg2.
    eapply runPages_after; [eapply grows_trans; eauto | | apply IH].
    apply List.Forall_app. auto.
Qed.

Lemma sync2_users_pages (fuel : nat) (emails keywords : list string)
    (today maxDate : Date) (lastRun : option Date)
    (count : nat) (w : World) :
  runPages (Date_parse P) w
    (sync2_users P TEAM fuel emails keywords today maxDate lastRun count w).
Proof.
  revert count w.
  induction emails as [|email_ rest IH]; intros count w; simpl.
  - exists [], []. split; [apply grows_refl | constructor].
  - pose proof (sync2_keywords_pages fuel email_ (splitAt0 email_) keywords
                  today maxDate lastRun count w) as Hk.
    destruct (sync2_keywords P TEAM fuel email_ (splitAt0 email_) keywords
                today maxDate lastRun count w) as [count' w1 | err w1 |];
      simpl; [| exact Hk | exact I].
    destruct Hk as (t1 & l1 & Hg1 & Ha1).
    eapply runPages_after; eauto.
Qed.

(** A pass that returns received only pages that came through the
    filter; a pass that throws does so on the page of its last list
    call, where it stops. *)
Lemma sync2_pages (fuel : nat) (w : World) :
  match sync2 P TEAM USERS fuel w with
  | Returns _ w' =>
    exists t, trace w' = trace w ++ t
              /\ Forall (pageFiltered (Date_parse P)) t
  | Throws err w' =>
    exists t0 l w0 c,
      grows w w0 t0 l /\ Forall (pageFiltered (Date_parse P)) t0
      /\ pageFaults (Date_parse P) err c /\ w' = record c w0
  | Diverges => True
  end.
Proof.
  unfold sync2.
  match goal with
  | |- context [sync2_users P TEAM fuel USERS KEYWORDS2 ?a ?b ?c 0 w] =>
    pose proof (sync2_users_pages fuel USERS KEYWORDS2 a b c 0 w) as Hu;
    destruct (sync2_users P TEAM fuel USERS KEYWORDS2 a b c 0 w)
      as [count w1 | err w1 |]
  end; simpl; [| exact Hu | exact I].
  destruct Hu as (t & l & (Ht & _) & Hall). exists t. auto.
Qed.

End Pages.

(** ** Termination of the reads *)

Lemma shouldImportEvent2_total (parse : string -> Date)
    (email_ keyword : string) (event : Event) :
  wellFormed event ->
  exists b, shouldImportEvent2 parse email_ keyword event = Normal b.
Proof.
  intros [Hs Hst]. unfold shouldImportEvent2.
  destruct (summary event) as [s|]; [|contradiction].
  destruct (indexOf (toLowerCase s) keyword <? 0)%Z; [eauto|].
  destruct (start event) as [st|]; [|contradiction].
  destruct (numEq _ 0 || numEq _ 6); [eauto|].
  destruct (organizer event) as [o|]; [|eauto].
  destruct (strictEq (email o) email_); [eauto|].
  destruct (attendees event) as [atts|]; [|eauto].
  destruct (List.filter self atts); eauto.
Qed.

Section Termination.

Variable P : Platform.
Variable TEAM : string.
Variable USERS : list string.
Variable rank : option string -> nat.
Hypothesis orderly : orderlyReads P rank.

Lemma findEvents2_loop_total (fuel : nat) (email_ keyword : string)
    (params : Params) (tok : option string) (events : list Event)
    (w : World) :
  (rank tok < fuel)%nat ->
  exists evs w',
    findEvents2_loop P fuel email_ keyword params tok events w
    = Returns evs w'.
Proof.
  revert params tok events w.
  induction fuel as [|fuel IH]; intros params tok events w Hfuel; [lia|].
  simpl.
  set (params' := withPageToken params tok).
  pose proof (orderly (trace w) email_ params') as Ho.
  destruct (Calendar_Events_list P (trace w) email_ params') as [e | r].
  - simpl in Ho. rewrite Ho. eauto.
  - destruct Ho as [Hwf Hrank].
    destruct (filterC_total
                (shouldImportEvent2 (Date_parse P) email_ keyword) (items r))
      as [kept ->].
    { eapply List.Forall_impl; [|exact Hwf].
      intros e He. now apply shouldImportEvent2_total. }
    destruct (truthy (nextPageToken r)) eqn:Hnext; [|eauto].
    apply IH. specialize (Hrank eq_refl). simpl in Hrank. lia.
Qed.

Lemma sync2_keywords_total (fuel : nat) (email_ username : string)
    (keywords : list string) (today maxDate : Date) (lastRun : option Date)
    (count : nat) (w : World) :
  (rank None < fuel)%nat ->
  exists count' w',
    sync2_keywords P TEAM fuel email_ username keywords today maxDate
                   lastRun count w
    = Returns count' w'.
Proof.
  intros Hfuel. revert count w.
  induction keywords as [|keyword rest IH]; intros count w; simpl; [eauto|].
  unfold findEvents2.
  match goal with
  | |- context [findEvents2_loop P fuel email_ keyword ?ps None [] w] =>
    destruct (findEvents2_loop_total fuel email_ keyword ps None [] w Hfuel)
      as (events & w1 & ->)
  end.
  simpl. destruct (sync2_events P TEAM username events count w1). apply IH.
Qed.

Lemma sync2_users_total (fuel : nat) (emails keywords : list string)
    (today maxDate : Date) (lastRun : option Date)
    (count : nat) (w : World) :
  (rank None < fuel)%nat ->
  exists count' w',
    sync2_users P TEAM fuel emails keywords today maxDate lastRun count w
    = Returns count' w'.
Proof.
  intros Hfuel. revert count w.
  induction emails as [|email_ rest IH]; intros count w; simpl; [eauto|].
  destruct (sync2_keywords_total fuel email_ (splitAt0 email_) keywords
              today maxDate lastRun count w Hfuel) as (count' & w1 & ->).
  simpl. apply IH.
Qed.

Lemma sync2_total (fuel : nat) (w : World) :
  (rank None < fuel)%nat ->
  exists w', sync2 P TEAM USERS fuel w = Returns tt w'.
Proof.
  intros Hfuel. unfold sync2.
  match goal with
  | |- context [sync2_users P TEAM fuel USERS KEYWORDS2 ?a ?b ?c 0 w] =>
    destruct (sync2_users_total fuel USERS KEYWORDS2 a b c 0 w Hfuel)
      as (count & w1 & ->)
  end.
  simpl. eauto.
Qed.

End Termination.

(** More fuel changes nothing once a query has returned or thrown. *)
Lemma findEvents2_loop_more_fuel (P : Platform) (fuel fuel' : nat)
    (email_ keyword : string) (params : Params) (tok : option string)
    (events : list Event) (w : World) :
  (fuel <= fuel')%nat ->
  findEvents2_loop P fuel email_ keyword params tok events w <> Diverges ->
  findEvents2_loop P fuel' email_ keyword params tok events w
  = findEvents2_loop P fuel email_ keyword params tok events w.
Proof.
  revert fuel' params tok events w.
  induction fuel as [|fuel IH]; intros fuel' params tok events w Hle Hnd;
    [contradiction|].
  destruct fuel' as [|fuel']; [lia|]. simpl in *.
  destruct (Calendar_Events_list P (trace w) email_ _) as [e | r].
  - destruct (truthy tok); [|reflexivity]. apply IH; [lia | exact Hnd].
  - destruct (filterC _ (items r)) as [kept | err]; [|reflexivity].
    destruct (truthy (nextPageToken r)); [|reflexivity].
    apply IH; [lia | exact Hnd].
Qed.

(** ** The paginated query *)

Lemma withPageToken_queryParams (P : Platform) (keyword : string)
    (start_ end_ : Date) (optSince : option Date) (tok tok' : option string) :
  withPageToken (queryParams P keyword start_ end_ optSince tok) tok'
  = queryParams P keyword start_ end_ optSince tok'.
Proof. reflexivity. Qed.

Lemma withPageToken_again (params : Params) (tok tok' : option string) :
  withPageToken (withPageToken params tok) tok' = withPageToken params tok'.
Proof. reflexivity. Qed.

(** One turn of the do-while loop. *)
Lemma findEvents2_loop_turn (P : Platform) (fuel : nat)
    (email_ keyword : string) (params : Params) (tok : option string)
    (events : list Event) (w : World) :
  findEvents2_loop P (S fuel) email_ keyword params tok events w
  = match Calendar_Events_list P (trace w) email_ (withPageToken params tok) with
    | inl e =>
      let w2 := log (ErrorRetrieving email_ keyword e)
                    (record (ListCall email_ (withPageToken params tok) (inl e))
                            w) in
      if truthy tok
      then findEvents2_loop P fuel email_ keyword (withPageToken params tok)
                            tok events w2
      else Returns events w2
    | inr response =>
      let w1 := record (ListCall email_ (withPageToken params tok)
                                 (inr response)) w in
      match filterC (shouldImportEvent2 (Date_parse P) email_ keyword)
                    (items response) with
      | Throw e => Throws e w1
      | Normal kept =>
        if truthy (nextPageToken response)
        then findEvents2_loop P fuel email_ keyword (withPageToken params tok)
                              (nextPageToken response) (events ++ kept) w1
        else Returns (events ++ kept) w1
      end
    end.
Proof.
  cbn [findEvents2_loop].
  destruct (Calendar_Events_list P (trace w) email_ (withPageToken params tok));
    reflexivity.
Qed.

(** A list call that throws on the first page ends the query: the error
    is logged and no event comes back. *)
Lemma findEvents2_first_page_failure (P : Platform) (fuel : nat)
    (email_ keyword : string) (start_ end_ : Date) (optSince : option Date)
    (w : World) (e : string) :
  Calendar_Events_list P (trace w) email_
    (queryParams P keyword start_ end_ optSince None) = inl e ->
  exists w',
    findEvents2 P (S fuel) email_ keyword start_ end_ optSince w
    = Returns [] w'
    /\ console w' = console w ++ [ErrorRetrieving email_ keyword e].
Proof.
  intros Hfail. unfold findEvents2.
  rewrite findEvents2_loop_turn, withPageToken_queryParams, Hfail.
  simpl. eauto.
Qed.

(** With orderly reads a query returns, and what it returns is the
    events of the pages it received that pass the filter, in the order
    received. *)
Lemma findEvents2_returns_pages_in_order (P : Platform)
    (rank : option string -> nat) (fuel : nat) (email_ keyword : string)
    (start_ end_ : Date) (optSince : option Date) (w : World) :
  orderlyReads P rank -> (rank None < fuel)%nat ->
  exists evs w' t,
    findEvents2 P fuel email_ keyword start_ end_ optSince w = Returns evs w'
    /\ trace w' = trace w ++ t
    /\ selected (Date_parse P) t = map (pair email_) evs
    /\ queries t = [(email_, keyword)]
    /\ attempted t = [].
Proof.
  intros Ho Hfuel. unfold findEvents2.
  destruct (findEvents2_loop_total P rank Ho fuel email_ keyword
              (queryParams P keyword start_ end_ optSince None) None [] w Hfuel)
    as (evs & w' & Hrun).
  pose proof (findEvents2_loop_spec P fuel email_ keyword
                (queryParams P keyword start_ end_ optSince None) None [] w
                eq_refl) as Hspec.
  rewrite Hrun in Hspec.
  destruct Hspec as (t & l & new & (Ht & _) & Ha & _ & _ & Hev & Hs & Hq).
  simpl in Hev. subst new.
  exists evs, w', t. rewrite Hrun. auto.
Qed.

(** While the list call keeps throwing for a page token, the loop asks
    for that page again and again. *)
Lemma findEvents2_loop_stuck (P : Platform) (email_ keyword : string)
    (asked : Params) (tok : option string) :
  truthy tok = true ->
  (forall hist, exists e, Calendar_Events_list P hist email_ asked = inl e) ->
  forall fuel params events w,
    withPageToken params tok = asked ->
    findEvents2_loop P fuel email_ keyword params tok events w = Diverges.
Proof.
  intros Htok Hfail. induction fuel as [|fuel IH]; intros params events w Hp;
    [reflexivity|].
  rewrite findEvents2_loop_turn, Hp.
  destruct (Hfail (trace w)) as [e ->].
  cbv zeta. rewrite Htok. apply IH. now rewrite <- Hp.
Qed.

(** C3, as the code runs when a later page fails.  The claim promises
    that a failing list call on any page, first or later, is logged,
    leaves the pair with no events, and lets [findEvents2] return.
    Without failures the query returns the filtered pages in order
    ([findEvents2_returns_pages_in_order]), and a failure on a first
    page is handled as promised ([findEvents2_first_page_failure]).
    On a later page the [continue] of the catch goes back to the loop
    test with the page token unchanged, so the same page is asked for
    again: when the provider has sent a first page with a continuation
    token and throws on every request for the page of that token,
    [findEvents2] does not return, whatever the fuel. *)
Theorem findEvents2_hangs_on_failing_later_page (P : Platform)
    (email_ keyword : string) (start_ end_ : Date) (optSince : option Date)
    (w : World) (r : Response) :
  Calendar_Events_list P (trace w) email_
    (queryParams P keyword start_ end_ optSince None) = inr r ->
  Forall wellFormed (items r) ->
  truthy (nextPageToken r) = true ->
  (forall hist,
      exists e,
        Calendar_Events_list P hist email_
          (queryParams P keyword start_ end_ optSince (nextPageToken r))
        = inl e) ->
  forall fuel,
    findEvents2 P fuel email_ keyword start_ end_ optSince w = Diverges.
Proof.
  intros Hfirst Hwf Hnext Hfail [|fuel]; [reflexivity|].
  unfold findEvents2.
  rewrite findEvents2_loop_turn, withPageToken_queryParams, Hfirst.
  destruct (filterC_total
              (shouldImportEvent2 (Date_parse P) email_ keyword) (items r))
    as [kept ->].
  { eapply List.Forall_impl; [|exact Hwf].
    intros e He. now apply shouldImportEvent2_total. }
  cbv zeta. rewrite Hnext.
  now apply findEvents2_loop_stuck
    with (queryParams P keyword start_ end_ optSince (nextPageToken r)).
Qed.

Lemma sample_wellFormed_search (keyword : string) :
  Forall wellFormed (Sample.search keyword Sample.bobsCalendar).
Proof.
  unfold Sample.search. apply List.Forall_forall. intros e He.
  apply filter_In in He as [He _]. simpl in He.
  repeat (destruct He as [<- | He]; [split; discriminate |]).
  contradiction.
Qed.

Lemma findEvents2_hangs_on_failing_later_page_witness :
  findEvents2 (Sample.platform Sample.listBobStuck Sample.importOk)
              1000 Sample.bob "pto" (Some 0%Z) (Some 1%Z) None Sample.fresh
  = Diverges.
Proof.
  refine (findEvents2_hangs_on_failing_later_page
            (Sample.platform Sample.listBobStuck Sample.importOk)
            Sample.bob "pto" (Some 0%Z) (Some 1%Z) None Sample.fresh
            {| items := [Sample.teamPTO_tuesday];
               nextPageToken := Some "1" |} eq_refl _ eq_refl _ 1000%nat).
  - repeat constructor; discriminate.
  - intros hist. eexists. reflexivity.
Defined.

(** A later page that fails once and then goes through: the query
    returns the events of both pages, after one logged error. *)
Example findEvents2_retries_later_page :
  exists w',
    findEvents2 (Sample.platform Sample.listBobHiccup Sample.importOk)
                4 Sample.bob "vacation" (Some 0%Z) (Some 1%Z) None Sample.fresh
    = Returns [Sample.offsite_accepted; Sample.ptoVacation] w'
    /\ console w'
       = [ErrorRetrieving Sample.bob "vacation"
                          "Exception: Service unavailable"].
Proof.
  eexists. split; [vm_compute; reflexivity|]. vm_compute. reflexivity.
Qed.

(** ** The pass *)

(** C4, amended: a pass that ends, and in which the filter came
    through every page the pass was sent, returns, and it has stored
    the time it started at under "lastRun", whatever the import calls
    did: each selected event was handed to the import call once, in
    order, whether that call threw or not, and each call that threw
    left its error on the console.  The clock has moved on by the time
    the calls took, so that what is stored is the start of the pass
    and not its end. *)
Theorem sync2_persists_lastRun (P : Platform) (TEAM : string)
    (USERS : list string) (fuel : nat) (w w' : World) (t : list Call) :
  finalWorld (sync2 P TEAM USERS fuel w) = Some w' ->
  trace w' = trace w ++ t ->
  Forall (pageFiltered (Date_parse P)) t ->
  sync2 P TEAM USERS fuel w = Returns tt w'
  /\ getProperty "lastRun" w' = Some (Date_toString P (clock w))
  /\ clock w' = (clock w + elapsed (callTime w) (trace w) t)%Z
  /\ attempted t = map (mirrored TEAM) (selected (Date_parse P) t)
  /\ exists l,
       console w'
       = console w ++ l ++ [LogImported (length (selected (Date_parse P) t))]
       /\ importErrors l = failureMessages t.
Proof.
  intros Hend Ht Hall.
  pose proof (sync2_spec P TEAM USERS fuel w) as Hspec.
  pose proof (sync2_pages P TEAM USERS fuel w) as Hpages.
  destruct (sync2 P TEAM USERS fuel w) as [[] w1 | err w1 |];
    simpl in Hend; [| | discriminate]; injection Hend as ->.
  - destruct Hspec as (t' & l & Ht' & Hl & Hp & _ & Hc & Ha & He & _).
    assert (t' = t) as -> by (apply (app_inv_head (trace w)); congruence).
    split; [reflexivity|]. split; [| eauto].
    unfold getProperty. rewrite Hp. apply lookup_insert_eq.
  - exfalso.
    destruct Hpages as (t0 & l & w0 & c & (Ht0 & _) & _ & Hc & ->).
    simpl in Ht. rewrite Ht0, <- app_assoc in Ht.
    apply app_inv_head in Ht. subst t.
    apply List.Forall_app in Hall as [_ Hall]. inversion Hall; subst.
    eapply pageFaults_not_filtered; eauto.
Qed.

Lemma sync2_persists_lastRun_witness :
  exists w',
    sync2 (Sample.platform Sample.listBobHiccup Sample.importFlaky)
          Sample.team [Sample.bob] 5 Sample.fresh = Returns tt w'
    /\ getProperty "lastRun" w' = Some "2026-11-02T00:00:00Z"
    /\ clock w' = (clock Sample.fresh + 4750)%Z
    /\ attempted (trace w')
       = map (mirrored Sample.team) (selected Sample.parse (trace w'))
    /\ failedReads (trace w')
       = [(Sample.bob, "pto", "Exception: Service unavailable")]
    /\ length (failureMessages (trace w')) = 3%nat.
Proof.
  match eval vm_compute in
        (finalWorld
           (sync2 (Sample.platform Sample.listBobHiccup Sample.importFlaky)
                  Sample.team [Sample.bob] 5 Sample.fresh))
  with
  | Some ?w1 =>
    assert (Hend : finalWorld
                     (sync2 (Sample.platform Sample.listBobHiccup
                                             Sample.importFlaky)
                            Sample.team [Sample.bob] 5 Sample.fresh)
                   = Some w1) by (vm_compute; reflexivity);
    assert (Hall : Forall (pageFiltered Sample.parse) (trace w1))
      by (apply pagesFiltered_spec; vm_compute; reflexivity);
    destruct (sync2_persists_lastRun
                (Sample.platform Sample.listBobHiccup Sample.importFlaky)
                Sample.team [Sample.bob] 5 Sample.fresh w1 (trace w1)
                Hend eq_refl Hall)
      as (Hrun & Hlast & Hclock & Hatt & _);
    exists w1
  end.
  split; [exact Hrun|]. split; [exact Hlast|].
  split; [rewrite Hclock; vm_compute; reflexivity|].
  split; [exact Hatt|]. vm_compute. split; reflexivity.
Defined.

(** Every pass that returns is one of those: it was sent only pages
    that came through the filter. *)
Lemma sync2_returning_pass_filtered (P : Platform) (TEAM : string)
    (USERS : list string) (fuel : nat) (w w' : World) (t : list Call) :
  sync2 P TEAM USERS fuel w = Returns tt w' ->
  trace w' = trace w ++ t ->
  Forall (pageFiltered (Date_parse P)) t.
Proof.
  intros Hrun Ht.
  pose proof (sync2_pages P TEAM USERS fuel w) as Hpages.
  rewrite Hrun in Hpages. destruct Hpages as (t' & Ht' & Hall).
  assert (t' = t) as -> by (apply (app_inv_head (trace w)); congruence).
  exact Hall.
Qed.

(** Events that have a summary and a start are enough for the pages to
    come through the filter. *)
Lemma wellFormed_pages_filtered (parse : string -> Date) (t : list Call) :
  Forall (fun c => match c with
                   | ListCall _ _ (inr r) => Forall wellFormed (items r)
                   | _ => True
                   end) t ->
  Forall (pageFiltered parse) t.
Proof.
  apply List.Forall_impl. intros [u p [e | r] | ev cal res]; simpl; auto.
  apply List.Forall_impl. intros e. apply shouldImportEvent2_total.
Qed.

Lemma Forall_skipn_wellFormed (n : nat) (l : list Event) :
  Forall wellFormed l -> Forall wellFormed (skipn n l).
Proof.
  revert l. induction n as [|n IH]; intros l H; simpl; [exact H|].
  destruct l as [|x l]; [constructor|]. apply IH. now inversion H.
Qed.

Lemma sample_pageIndex (tok : option string) (n : nat) :
  Sample.pageIndex tok = Some n ->
  n = 0%nat \/ n = 1%nat \/ n = 2%nat \/ n = 3%nat.
Proof.
  unfold Sample.pageIndex. destruct tok as [s|].
  - destruct (String.eqb s "1"); [intros [= <-]; auto|].
    destruct (String.eqb s "2"); [intros [= <-]; auto|].
    destruct (String.eqb s "3"); [intros [= <-]; auto|].
    discriminate.
  - intros [= <-]. auto.
Qed.

(** The paginating sample provider reads in order: it never throws,
    its events have a summary and a start, and each page leaves fewer
    pages to come. *)
Lemma sample_paged_orderly
    (import_ : list Call -> Event -> string -> option string) :
  orderlyReads (Sample.platform Sample.listAnyonePaged import_)
               Sample.pagesLeft.
Proof.
  intros hist u params. simpl. unfold Sample.listAnyonePaged.
  destruct (Sample.pageIndex (pageToken params)) as [n|] eqn:Hn.
  - pose proof (Forall_skipn_wellFormed n _
                  (sample_wellFormed_search (q params))) as Hwf.
    unfold Sample.pageFrom.
    destruct (skipn n (Sample.search (q params) Sample.bobsCalendar))
      as [|e [|e' rest]]; simpl.
    + split; [constructor | discriminate].
    + split; [exact Hwf | discriminate].
    + split; [inversion Hwf; subst; constructor; auto|].
      intros _. unfold Sample.pagesLeft at 2. rewrite Hn.
      destruct (sample_pageIndex _ _ Hn) as [-> | [-> | [-> | ->]]];
        vm_compute; lia.
  - simpl. split; [constructor | discriminate].
Qed.

(** A pass ends when its reads are orderly: a list call throws on first
    pages only, every listed event has a summary and a start, and the
    continuation tokens run out. *)
Lemma sync2_ends_on_orderly_reads (P : Platform) (TEAM : string)
    (USERS : list string) (rank : option string -> nat)
    (fuel : nat) (w : World) :
  orderlyReads P rank -> (rank None < fuel)%nat ->
  exists w', sync2 P TEAM USERS fuel w = Returns tt w'.
Proof. intros Ho Hfuel. now apply sync2_total with rank. Qed.

Example sync2_paginated_pass_ends :
  exists w',
    sync2 (Sample.platform Sample.listAnyonePaged Sample.importFlaky)
          Sample.team [Sample.bob; "amy@example.com"] 5 Sample.fresh
    = Returns tt w'.
Proof.
  apply sync2_ends_on_orderly_reads with Sample.pagesLeft.
  - apply sample_paged_orderly.
  - vm_compute. lia.
Qed.

(** C4, read for every run, fails on a pass that is cut short: here the
    second query of the pass lists an event without a title, the filter
    throws, and the pass ends after the imports of the first query
    without writing "lastRun". *)
Lemma sync2_cut_short_writes_no_lastRun :
  exists w',
    sync2 (Sample.platform Sample.listUntitled Sample.importOk)
          Sample.team [Sample.bob] 1 Sample.fresh
    = Throws (TypeError "event.summary is undefined") w'
    /\ getProperty "lastRun" w' = None
    /\ console w' = [LogImporting "[bob] Team PTO";
                     LogImporting "[bob] PTO vacation"].
Proof.
  eexists. split; [vm_compute; reflexivity|].
  vm_compute. repeat split; reflexivity.
Qed.

(** A pass on bob's calendar in which three of the five imports threw:
    "lastRun" is written all the same. *)
Example sync2_flaky_imports_run :
  exists w',
    sync2 (Sample.platform Sample.listAnyone Sample.importFlaky)
          Sample.team [Sample.bob] 1 Sample.fresh = Returns tt w'
    /\ getProperty "lastRun" w' = Some "2026-11-02T00:00:00Z"
    /\ map iCalUID (attempted (trace w'))
       = ["uid-1"; "uid-6"; "uid-4"; "uid-5"; "uid-6"]
    /\ map iCalUID (succeeded (trace w')) = ["uid-4"; "uid-5"]
    /\ length (failureMessages (trace w')) = 3%nat.
Proof.
  eexists. split; [vm_compute; reflexivity|].
  vm_compute. repeat split; reflexivity.
Qed.

(** ** The transform *)

(** C6: for every user name [U] and event [E], the event handed to the
    import call has the summary "[" + U + "] " + E.summary, the team
    calendar as its organizer, no attendees, and the event type
    'default'; an event that was not of type 'default' has lost its
    outOfOfficeProperties and focusTimeProperties, an event of type
    'default' keeps what it has; and this is the event [importEvent2]
    sends to the team calendar. *)
Theorem toMirroredEvent_spec (P : Platform) (TEAM U : string) (E : Event)
    (w : World) :
  let M := toMirroredEvent TEAM U E in
  summary M = Some ("[" +:+ U +:+ "] " +:+ toStr (summary E))
  /\ (forall s, summary E = Some s -> summary M = Some ("[" +:+ U +:+ "] " +:+ s))
  /\ organizer M = Some {| id := Some TEAM; email := None |}
  /\ attendees M = Some []
  /\ eventType M = Some "default"
  /\ (eventType E <> Some "default" ->
      outOfOfficeProperties M = None /\ focusTimeProperties M = None)
  /\ (eventType E = Some "default" ->
      outOfOfficeProperties M = outOfOfficeProperties E
      /\ focusTimeProperties M = focusTimeProperties E)
  /\ iCalUID M = iCalUID E /\ start M = start E
  /\ exists r,
       trace (importEvent2 P TEAM U E w) = trace w ++ [ImportCall M TEAM r].
Proof.
  cbv zeta. unfold toMirroredEvent.
  destruct (strictEq (eventType E) "default") eqn:Ht; simpl.
  - apply strictEq_true in Ht.
    repeat split; auto; try congruence.
    + intros s ->. reflexivity.
    + destruct (importEvent2_grows P TEAM U E w) as [r [Hr _]].
      exists r. rewrite Hr. unfold toMirroredEvent.
      apply strictEq_true in Ht. now rewrite Ht.
  - apply strictEq_false in Ht.
    repeat split; auto; try congruence.
    + intros s ->. reflexivity.
    + destruct (importEvent2_grows P TEAM U E w) as [r [Hr _]].
      exists r. rewrite Hr. unfold toMirroredEvent.
      apply strictEq_false in Ht. now rewrite Ht.
Qed.

(** The spec's scenario: bob's own "Bob OOO next week", on a Tuesday, is
    accepted and mirrored as "[bob] Bob OOO next week". *)
Example bobOOO_scenario :
  shouldImportEvent2 Sample.parse Sample.bob "ooo" Sample.bobOOO_tuesday
  = Normal true
  /\ summary (toMirroredEvent Sample.team (splitAt0 Sample.bob)
                              Sample.bobOOO_tuesday)
     = Some "[bob] Bob OOO next week".
Proof. vm_compute. split; reflexivity. Qed.

(** ** The schedule *)

Lemma sync2_keeps_triggers (P : Platform) (TEAM : string) (USERS : list string)
    (fuel : nat) (w w' : World) :
  finalWorld (sync2 P TEAM USERS fuel w) = Some w' ->
  triggers w' = triggers w.
Proof.
  intros Hf. pose proof (sync2_spec P TEAM USERS fuel w) as Hspec.
  destruct (sync2 P TEAM USERS fuel w) as [[] w1 | err w1 |];
    simpl in Hf; inversion Hf; subst.
  - destruct Hspec as (t & l & _ & _ & _ & Hg & _). exact Hg.
  - destruct Hspec as (t & l & _ & _ & _ & Hg & _). exact Hg.
Qed.

(** C8: in a project without triggers, a call of [setup2] that ends
    (by returning, or by throwing out of its first sync) leaves exactly
    one trigger, the hourly one for [sync2]; and while that trigger
    exists, a call of [setup2] throws 'Triggers are already setup.' and
    leaves the world, its triggers included, as it found it. *)
Theorem setup2_registers_once (P : Platform) (TEAM : string)
    (USERS : list string) (fuel : nat) (w w1 : World) :
  triggers w = [] ->
  finalWorld (setup2 P TEAM USERS fuel w) = Some w1 ->
  triggers w1 = [hourlySync2]
  /\ forall fuel' w2,
       In hourlySync2 (triggers w2) ->
       setup2 P TEAM USERS fuel' w2
       = Throws (PlainError "Triggers are already setup.") w2.
Proof.
  intros Hnone Hend. split.
  - unfold setup2 in Hend. rewrite Hnone in Hend. simpl in Hend.
    apply sync2_keeps_triggers in Hend. rewrite Hend. simpl.
    now rewrite Hnone.
  - intros fuel' w2 Hin. unfold setup2.
    destruct (triggers w2) as [|t ts]; [contradiction | reflexivity].
Qed.

Lemma setup2_registers_once_witness :
  exists w1,
    setup2 (Sample.platform Sample.listBob Sample.importOk) Sample.team
           [Sample.bob] 1 Sample.fresh = Returns tt w1
    /\ triggers w1 = [hourlySync2]
    /\ setup2 (Sample.platform Sample.listBob Sample.importOk) Sample.team
              [Sample.bob] 1 w1
       = Throws (PlainError "Triggers are already setup.") w1.
Proof.
  eexists. split; [vm_compute; reflexivity|].
  match goal with
  | |- triggers ?w1 = _ /\ _ =>
    assert (Hend : finalWorld
                     (setup2 (Sample.platform Sample.listBob Sample.importOk)
                             Sample.team [Sample.bob] 1 Sample.fresh)
                   = Some w1) by (vm_compute; reflexivity);
    destruct (setup2_registers_once
                (Sample.platform Sample.listBob Sample.importOk)
                Sample.team [Sample.bob] 1 Sample.fresh w1 eq_refl Hend)
      as [Ht Hagain]
  end.
  split; [exact Ht|]. apply Hagain. rewrite Ht. now left.
Defined.

(** ** Faults of the filter *)

(** One turn of the loop of [findEvents2] on a page that holds an
    event without a summary, on whatever page of whatever query: the
    fault of the filter leaves [findEvents2] at once, in the state the
    list call left, with nothing logged. *)
Lemma findEvents2_loop_untitled (P : Platform) (fuel : nat)
    (email_ keyword : string) (params : Params) (tok : option string)
    (events : list Event) (w : World) (r : Response) (e : Event) :
  Calendar_Events_list P (trace w) email_ (withPageToken params tok) = inr r ->
  In e (items r) -> summary e = None ->
  exists what,
    findEvents2_loop P (S fuel) email_ keyword params tok events w
    = Throws (TypeError what)
             (record (ListCall email_ (withPageToken params tok) (inr r)) w).
Proof.
  intros Hlist Hin Hsum.
  assert (Hthrow : shouldImportEvent2 (Date_parse P) email_ keyword e
                   = Throw (TypeError "event.summary is undefined")).
  { unfold shouldImportEvent2. now rewrite Hsum. }
  destruct (filterC_Throw _ _ _ _ Hin Hthrow) as [err Herr].
  destruct (filterC_throws_TypeError _ _ _ _ _ Herr) as [what ->].
  exists what. rewrite findEvents2_loop_turn, Hlist. cbv zeta.
  now rewrite Herr.
Qed.

(** C9: [shouldImportEvent2] returns a boolean for every event that has
    a summary and a start carrying a date or a dateTime; without a
    start it throws once the keyword rule has let the event through,
    and without a summary it throws at once.  On whatever page of
    whatever query an event without a summary is listed, the TypeError
    leaves [findEvents2] uncaught, and a pass that ends and was sent
    such a page ended on it: it threw the TypeError in the state the
    list call of that page left, with nothing logged for the fault and
    "lastRun" as it was before the pass. *)
Theorem missing_summary_aborts_pass (P : Platform) (TEAM : string)
    (USERS : list string) (fuel : nat) (w w' : World) (t : list Call)
    (u : string) (p : Params) (r : Response) (e : Event) :
  finalWorld (sync2 P TEAM USERS fuel w) = Some w' ->
  trace w' = trace w ++ t ->
  In (ListCall u p (inr r)) t ->
  In e (items r) ->
  summary e = None ->
  (forall parse email_ keyword event s st,
      summary event = Some s -> start event = Some st ->
      date st <> None \/ dateTime st <> None ->
      shouldImportEvent2 parse email_ keyword event = Normal true
      \/ shouldImportEvent2 parse email_ keyword event = Normal false)
  /\ (forall parse email_ keyword event s,
        summary event = Some s -> contains (toLowerCase s) keyword ->
        start event = None ->
        shouldImportEvent2 parse email_ keyword event
        = Throw (TypeError "event.start is undefined"))
  /\ shouldImportEvent2 (Date_parse P) u (q p) e
     = Throw (TypeError "event.summary is undefined")
  /\ (forall fuel' email_ keyword params tok events w0 r0 e0,
        Calendar_Events_list P (trace w0) email_ (withPageToken params tok)
        = inr r0 ->
        In e0 (items r0) -> summary e0 = None ->
        exists what,
          findEvents2_loop P (S fuel') email_ keyword params tok events w0
          = Throws (TypeError what)
                   (record (ListCall email_ (withPageToken params tok)
                                     (inr r0)) w0))
  /\ exists what w0 t0 l,
       sync2 P TEAM USERS fuel w = Throws (TypeError what) w'
       /\ grows w w0 t0 l
       /\ w' = record (ListCall u p (inr r)) w0
       /\ t = t0 ++ [ListCall u p (inr r)]
       /\ getProperty "lastRun" w' = getProperty "lastRun" w.
Proof.
  intros Hend Ht Hcall Hin Hsum.
  split; [| split; [| split; [| split]]].
  - intros parse email_ keyword event s st Hs Hst _.
    destruct (shouldImportEvent2_total parse email_ keyword event) as [[] Hb].
    + split; congruence.
    + now left.
    + now right.
  - intros parse email_ keyword event s Hs Hk Hst.
    unfold shouldImportEvent2. rewrite Hs, Hst.
    apply indexOf_ltb in Hk. now rewrite Hk.
  - unfold shouldImportEvent2. now rewrite Hsum.
  - intros fuel' email_ keyword params tok events w0 r0 e0.
    apply findEvents2_loop_untitled.
  - pose proof (sync2_pages P TEAM USERS fuel w) as Hpages.
    destruct (sync2 P TEAM USERS fuel w) as [[] w1 | err w1 |];
      simpl in Hend; [| | discriminate]; injection Hend as ->.
    + exfalso. destruct Hpages as (t' & Ht' & Hall).
      assert (t' = t) as -> by (apply (app_inv_head (trace w)); congruence).
      rewrite List.Forall_forall in Hall.
      exact (untitled_not_filtered _ _ _ _ _ Hin Hsum (Hall _ Hcall)).
    + destruct Hpages as (t0 & l & w0 & c & Hg & Hall & Hc & ->).
      destruct (pageFaults_TypeError _ _ _ Hc) as [what ->].
      pose proof Hg as (Ht0 & _ & Hp0 & _).
      simpl in Ht. rewrite Ht0, <- app_assoc in Ht.
      apply app_inv_head in Ht. subst t.
      apply in_app_or in Hcall as [Hcall | [<- | []]].
      * exfalso. rewrite List.Forall_forall in Hall.
        exact (untitled_not_filtered _ _ _ _ _ Hin Hsum (Hall _ Hcall)).
      * exists what, w0, t0, l.
        split; [reflexivity|]. split; [exact Hg|].
        split; [reflexivity|]. split; [reflexivity|].
        unfold getProperty. simpl. now rewrite Hp0.
Qed.

(** When the very first page of a pass holds the event, the pass is
    over after that one call. *)
Lemma sync2_untitled_on_first_page (P : Platform) (TEAM u : string)
    (rest : list string) (fuel : nat) (w : World) (r : Response) (e : Event) :
  Calendar_Events_list P (trace w) u (passQuery P w "pto" None) = inr r ->
  In e (items r) ->
  summary e = None ->
  exists what,
    sync2 P TEAM (u :: rest) (S fuel) w
    = Throws (TypeError what)
             (record (ListCall u (passQuery P w "pto" None) (inr r)) w).
Proof.
  intros Hlist Hin Hsum.
  destruct (findEvents2_loop_untitled P fuel u "pto"
              (passQuery P w "pto" None) None [] w r e Hlist Hin Hsum)
    as [what Hrun].
  exists what.
  unfold sync2, KEYWORDS2. cbv zeta. cbn [sync2_users sync2_keywords].
  unfold findEvents2. fold (passQuery P w "pto" None).
  rewrite Hrun. reflexivity.
Qed.

Lemma missing_summary_aborts_pass_witness :
  exists what w',
    sync2 (Sample.platform Sample.listUntitledLater Sample.importOk)
          Sample.team [Sample.bob] 4 Sample.fresh
    = Throws (TypeError what) w'
    /\ getProperty "lastRun" w' = getProperty "lastRun" Sample.fresh
    /\ List.last (trace w') (ImportCall Sample.untitled "" None)
       = ListCall Sample.bob
           (passQuery (Sample.platform Sample.listUntitledLater
                                       Sample.importOk)
                      Sample.fresh "ooo" (Some "1"))
           (Sample.onePage [Sample.untitled])
    /\ console w' = [LogImporting "[bob] Team PTO";
                     LogImporting "[bob] PTO vacation"].
Proof.
  match eval vm_compute in
        (finalWorld
           (sync2 (Sample.platform Sample.listUntitledLater Sample.importOk)
                  Sample.team [Sample.bob] 4 Sample.fresh))
  with
  | Some ?w1 =>
    assert (Hend : finalWorld
                     (sync2 (Sample.platform Sample.listUntitledLater
                                             Sample.importOk)
                            Sample.team [Sample.bob] 4 Sample.fresh)
                   = Some w1) by (vm_compute; reflexivity);
    assert (Hcall : In (ListCall Sample.bob
                          (passQuery (Sample.platform Sample.listUntitledLater
                                                      Sample.importOk)
                                     Sample.fresh "ooo" (Some "1"))
                          (inr {| items := [Sample.untitled];
                                  nextPageToken := None |}))
                       (trace w1))
      by (vm_compute; repeat (first [left; reflexivity | right]));
    destruct (missing_summary_aborts_pass
                (Sample.platform Sample.listUntitledLater Sample.importOk)
                Sample.team [Sample.bob] 4 Sample.fresh w1 (trace w1)
                Sample.bob _ _ Sample.untitled
                Hend eq_refl Hcall (or_introl eq_refl) eq_refl)
      as (_ & _ & _ & _ & what & w0 & t0 & l & Hrun & _ & _ & _ & Hlast);
    exists what, w1
  end.
  split; [exact Hrun|]. split; [exact Hlast|].
  vm_compute. split; reflexivity.
Defined.

(** ** The count *)

(** C10: the number a pass logs at its end is the number of events
    that passed [shouldImportEvent2] over the queries of all (user,
    keyword) pairings, which is the number of import calls made, and
    not the number of imports that went through: a call that threw is
    counted like the others. *)
Theorem sync2_logs_selected_count (P : Platform) (TEAM : string)
    (USERS : list string) (fuel : nat) (w w' : World) :
  sync2 P TEAM USERS fuel w = Returns tt w' ->
  exists t l,
    trace w' = trace w ++ t
    /\ queries t = pairings USERS KEYWORDS2
    /\ console w'
       = console w ++ l ++ [LogImported (length (selected (Date_parse P) t))]
    /\ length (selected (Date_parse P) t) = length (attempted t)
    /\ length (attempted t)
       = (length (succeeded t) + length (failureMessages t))%nat.
Proof.
  intros Hrun. pose proof (sync2_spec P TEAM USERS fuel w) as Hspec.
  rewrite Hrun in Hspec.
  destruct Hspec as (t & l & Ht & Hl & _ & _ & _ & Ha & _ & Hq).
  exists t, l. repeat split; auto.
  - now rewrite Ha, length_map.
  - apply attempted_split.
Qed.

Lemma sync2_logs_selected_count_witness :
  exists w',
    sync2 (Sample.platform Sample.listAnyone Sample.importFlaky)
          Sample.team [Sample.bob] 1 Sample.fresh = Returns tt w'
    /\ exists t l,
         trace w' = trace Sample.fresh ++ t
         /\ queries t = pairings [Sample.bob] KEYWORDS2
         /\ console w'
            = console Sample.fresh ++ l
              ++ [LogImported (length (selected Sample.parse t))]
         /\ length (selected Sample.parse t) = length (attempted t)
         /\ length (attempted t)
            = (length (succeeded t) + length (failureMessages t))%nat.
Proof.
  eexists. split; [vm_compute; reflexivity|].
  apply (sync2_logs_selected_count
           (Sample.platform Sample.listAnyone Sample.importFlaky)
           Sample.team [Sample.bob] 1 Sample.fresh).
  vm_compute. reflexivity.
Defined.

(** In that run five events were selected and five are logged, while
    two imports went through. *)
Example sync2_logged_count_run :
  exists w',
    sync2 (Sample.platform Sample.listAnyone Sample.importFlaky)
          Sample.team [Sample.bob] 1 Sample.fresh = Returns tt w'
    /\ List.last (console w') (LogImported 0) = LogImported 5
    /\ length (selected Sample.parse (trace w')) = 5%nat
    /\ length (succeeded (trace w')) = 2%nat.
Proof.
  eexists. split; [vm_compute; reflexivity|].
  vm_compute. repeat split; reflexivity.
Qed.

(** ** No deduplication across keywords *)

Lemma two_occurrences {A : Type} (x y z s1 s2 : list A) (v : A) :
  In v s1 -> In v s2 ->
  exists a b c, x ++ s1 ++ y ++ s2 ++ z = a ++ v :: b ++ v :: c.
Proof.
  intros H1 H2.
  apply in_split in H1 as (l1 & l2 & ->).
  apply in_split in H2 as (l3 & l4 & ->).
  exists (x ++ l1), (l2 ++ y ++ l3), (l4 ++ z).
  repeat (rewrite <- !app_assoc; simpl). reflexivity.
Qed.

Lemma two_calls_split (c1 c2 : Call) (t : list Call) :
  In c1 t -> In c2 t -> c1 <> c2 ->
  exists x y z,
    t = x ++ c1 :: y ++ c2 :: z \/ t = x ++ c2 :: y ++ c1 :: z.
Proof.
  intros H1 H2 Hne.
  apply in_split in H1 as (x & y & ->).
  apply in_app_or in H2 as [H2 | [H2 | H2]].
  - apply in_split in H2 as (x1 & x2 & ->).
    exists x1, x2, y. right. now rewrite <- app_assoc.
  - congruence.
  - apply in_split in H2 as (y1 & y2 & ->).
    exists x, y1, y2. now left.
Qed.

(** The events a page contributes to the selection. *)
Lemma selected_page (parse : string -> Date) (u : string) (p : Params)
    (r : Response) (e : Event) :
  In e (items r) ->
  shouldImportEvent2 parse u (q p) e = Normal true ->
  In (u, e) (selected parse [ListCall u p (inr r)]).
Proof.
  intros Hin Hkeep. simpl. rewrite app_nil_r. apply in_map.
  apply filter_In. split; [exact Hin|]. unfold keep. now rewrite Hkeep.
Qed.

(** C7: in a pass that returns, the import calls are the transforms of
    the selected events of the queries, one call per selected event and
    in their order, and there is one query per (user, keyword) pairing;
    so an event that two queries of a user, for two different keywords,
    both list and both let through is handed to the import call twice:
    nothing removes the second copy. *)
Theorem sync2_imports_once_per_keyword_match (P : Platform) (TEAM : string)
    (USERS : list string) (fuel : nat) (w w' : World) (t : list Call)
    (u : string) (p1 p2 : Params) (r1 r2 : Response) (e : Event) :
  sync2 P TEAM USERS fuel w = Returns tt w' ->
  trace w' = trace w ++ t ->
  In (ListCall u p1 (inr r1)) t ->
  In (ListCall u p2 (inr r2)) t ->
  q p1 <> q p2 ->
  In e (items r1) -> In e (items r2) ->
  shouldImportEvent2 (Date_parse P) u (q p1) e = Normal true ->
  shouldImportEvent2 (Date_parse P) u (q p2) e = Normal true ->
  queries t = pairings USERS KEYWORDS2
  /\ attempted t = map (mirrored TEAM) (selected (Date_parse P) t)
  /\ exists a b c,
       attempted t
       = a ++ toMirroredEvent TEAM (splitAt0 u) e
           :: b ++ toMirroredEvent TEAM (splitAt0 u) e :: c.
Proof.
  intros Hrun Ht Hc1 Hc2 Hq He1 He2 Hk1 Hk2.
  pose proof (sync2_spec P TEAM USERS fuel w) as Hspec.
  rewrite Hrun in Hspec.
  destruct Hspec as (t' & l & Ht' & _ & _ & _ & _ & Ha & _ & Hqs).
  assert (t' = t) as -> by (rewrite Ht in Ht'; now apply app_inv_head in Ht').
  split; [exact Hqs | split; [exact Ha |]].
  assert (Hsel : exists a b c,
             selected (Date_parse P) t = a ++ (u, e) :: b ++ (u, e) :: c).
  { pose proof (selected_page (Date_parse P) u p1 r1 e He1 Hk1) as Hs1.
    pose proof (selected_page (Date_parse P) u p2 r2 e He2 Hk2) as Hs2.
    destruct (two_calls_split _ _ t Hc1 Hc2) as (x & y & z & [-> | ->]).
    { intros Heq. inversion Heq. congruence. }
    - change (x ++ ListCall u p1 (inr r1) :: y ++ ListCall u p2 (inr r2) :: z)
        with (x ++ [ListCall u p1 (inr r1)] ++ y
                ++ [ListCall u p2 (inr r2)] ++ z).
      rewrite !selected_app. now apply two_occurrences.
    - change (x ++ ListCall u p2 (inr r2) :: y ++ ListCall u p1 (inr r1) :: z)
        with (x ++ [ListCall u p2 (inr r2)] ++ y
                ++ [ListCall u p1 (inr r1)] ++ z).
      rewrite !selected_app. now apply two_occurrences. }
  destruct Hsel as (a & b & c & Hsel).
  exists (map (mirrored TEAM) a), (map (mirrored TEAM) b),
         (map (mirrored TEAM) c).
  rewrite Ha, Hsel, map_app. simpl. rewrite map_app. reflexivity.
Qed.

Lemma sync2_imports_once_per_keyword_match_witness :
  exists w',
    sync2 (Sample.platform Sample.listAnyone Sample.importOk)
          Sample.team [Sample.bob] 1 Sample.fresh = Returns tt w'
    /\ queries (trace w') = pairings [Sample.bob] KEYWORDS2
    /\ attempted (trace w')
       = map (mirrored Sample.team) (selected Sample.parse (trace w'))
    /\ exists a b c,
         attempted (trace w')
         = a ++ toMirroredEvent Sample.team (splitAt0 Sample.bob)
                                Sample.ptoVacation
             :: b ++ toMirroredEvent Sample.team (splitAt0 Sample.bob)
                                     Sample.ptoVacation :: c.
Proof.
  eexists. split; [vm_compute; reflexivity|].
  refine (sync2_imports_once_per_keyword_match
            (Sample.platform Sample.listAnyone Sample.importOk)
            Sample.team [Sample.bob] 1 Sample.fresh _ _ Sample.bob
            (passQuery (Sample.platform Sample.listAnyone Sample.importOk)
                       Sample.fresh "pto" None)
            (passQuery (Sample.platform Sample.listAnyone Sample.importOk)
                       Sample.fresh "vacation" None)
            {| items := Sample.search "pto" Sample.bobsCalendar;
               nextPageToken := None |}
            {| items := Sample.search "vacation" Sample.bobsCalendar;
               nextPageToken := None |}
            Sample.ptoVacation _ eq_refl _ _ _ _ _ _ _).
  - vm_compute. reflexivity.
  - vm_compute. repeat (first [left; reflexivity | right]).
  - vm_compute. repeat (first [left; reflexivity | right]).
  - discriminate.
  - vm_compute. repeat (first [left; reflexivity | right]).
  - vm_compute. repeat (first [left; reflexivity | right]).
  - vm_compute. reflexivity.
  - vm_compute. reflexivity.
Defined.

(** In that run "PTO vacation" is imported for the keyword "pto" and
    again for the keyword "vacation". *)
Example sync2_double_import_run :
  exists w',
    sync2 (Sample.platform Sample.listAnyone Sample.importOk)
          Sample.team [Sample.bob] 1 Sample.fresh = Returns tt w'
    /\ map iCalUID (attempted (trace w'))
       = ["uid-1"; "uid-6"; "uid-4"; "uid-5"; "uid-6"]
    /\ map summary (succeeded (trace w'))
       = [Some "[bob] Team PTO"; Some "[bob] PTO vacation";
          Some "[bob] Bob OOO next week"; Some "[bob] Offsite vacation";
          Some "[bob] PTO vacation"].
Proof.
  eexists. split; [vm_compute; reflexivity|].
  vm_compute. repeat split; reflexivity.
Qed.

(** * Further properties of the script *)

(** ** What the filter lets through *)

(** X1: an event [shouldImportEvent2] accepts has the keyword in its
    lower-cased summary (a keyword found only in another field is not
    enough), has a start that is not on a UTC Saturday or Sunday, and
    either has no organizer, or is organised by the user, or carries an
    attendee entry marked [self] that answers "accepted". *)
Theorem shouldImportEvent2_accepts_only
    (parse : string -> Date) (email_ keyword : string) (event : Event) :
  shouldImportEvent2 parse email_ keyword event = Normal true ->
  (exists s, summary event = Some s /\ contains (toLowerCase s) keyword)
  /\ (exists st, start event = Some st)
  /\ ~ isWeekend (startUTCDay parse event)
  /\ (organizer event = None
      \/ (exists o, organizer event = Some o /\ email o = Some email_)
      \/ (exists atts a, attendees event = Some atts /\ In a atts
                         /\ self a = true
                         /\ responseStatus a = Some "accepted")).
Proof.
  unfold shouldImportEvent2, startUTCDay. intros H.
  destruct (summary event) as [s|]; [|discriminate].
  destruct (indexOf (toLowerCase s) keyword <? 0)%Z eqn:Hk; [discriminate|].
  apply indexOf_ltb in Hk.
  destruct (start event) as [st|]; [|discriminate].
  destruct (numEq _ 0 || numEq _ 6) eqn:Hd; [discriminate|].
  split; [eauto | split; [eauto | split]].
  - intros [Hw | Hw]; rewrite Hw in Hd; discriminate.
  - destruct (organizer event) as [o|]; [|now left].
    right. destruct (strictEq (email o) email_) eqn:Ho.
    + left. apply strictEq_true in Ho. eauto.
    + right. destruct (attendees event) as [atts|]; [|discriminate].
      destruct (List.filter self atts) as [|m rest] eqn:Hf; [discriminate|].
      assert (Hm : In m (List.filter self atts)) by (rewrite Hf; now left).
      apply filter_In in Hm as [Hin Hself].
      exists atts, m. repeat split; auto.
      apply strictEq_true. congruence.
Qed.

Lemma shouldImportEvent2_accepts_only_witness :
  (exists s, summary Sample.offsite_accepted = Some s
             /\ contains (toLowerCase s) "vacation")
  /\ (exists st, start Sample.offsite_accepted = Some st)
  /\ ~ isWeekend (startUTCDay Sample.parse Sample.offsite_accepted)
  /\ (organizer Sample.offsite_accepted = None
      \/ (exists o, organizer Sample.offsite_accepted = Some o
                    /\ email o = Some Sample.bob)
      \/ (exists atts a, attendees Sample.offsite_accepted = Some atts
                         /\ In a atts /\ self a = true
                         /\ responseStatus a = Some "accepted")).
Proof.
  apply (shouldImportEvent2_accepts_only Sample.parse Sample.bob "vacation"
           Sample.offsite_accepted).
  vm_compute. reflexivity.
Defined.

(** X2: the weekend rule only rejects a start that parses: when the
    start carries neither a usable dateTime nor a usable date (the Date
    is invalid and its day of the week is NaN), an event with the
    keyword in its summary is judged by the organizer and attendee
    rules alone, so the user's own event is accepted. *)
Theorem shouldImportEvent2_invalid_start_not_rejected
    (parse : string -> Date) (email_ keyword : string)
    (event : Event) (s : string) (st : EventDateTime) :
  summary event = Some s ->
  contains (toLowerCase s) keyword ->
  start event = Some st ->
  newDate parse (orElse (dateTime st) (date st)) = None ->
  shouldImportEvent2 parse email_ keyword event
  = Normal (ownerOrAccepted email_ event)
  /\ (organizer event = None ->
      shouldImportEvent2 parse email_ keyword event = Normal true).
Proof.
  intros Hs Hk Hst Hd.
  assert (H : shouldImportEvent2 parse email_ keyword event
              = Normal (ownerOrAccepted email_ event)).
  { unfold shouldImportEvent2, ownerOrAccepted.
    rewrite Hs, Hst, Hd. apply indexOf_ltb in Hk. rewrite Hk. simpl.
    destruct (organizer event) as [o|]; [|reflexivity].
    destruct (strictEq (email o) email_); [reflexivity|].
    destruct (attendees event) as [atts|]; [|reflexivity].
    destruct (List.filter self atts); reflexivity. }
  split; [exact H|]. intros Ho. rewrite H. unfold ownerOrAccepted.
  now rewrite Ho.
Qed.

Lemma shouldImportEvent2_invalid_start_not_rejected_witness :
  shouldImportEvent2 Sample.parse Sample.bob "pto"
    (Sample.plain "uid-9" "PTO" "some saturday")
  = Normal true.
Proof.
  refine (proj2 (shouldImportEvent2_invalid_start_not_rejected
                   Sample.parse Sample.bob "pto"
                   (Sample.plain "uid-9" "PTO" "some saturday") "PTO"
                   {| date := Some "some saturday"; dateTime := None |}
                   eq_refl _ eq_refl eq_refl) eq_refl).
  exists "", "". reflexivity.
Defined.

(** X3: with several attendee entries marked [self], the first one
    decides and the later ones are not looked at: for an event that
    passes the keyword and weekday rules and is organised by someone
    else, the answer is whether the first [self] entry says
    "accepted". *)
Theorem shouldImportEvent2_first_self_entry_decides
    (parse : string -> Date) (email_ keyword : string)
    (event : Event) (s : string) (o : Organizer)
    (before after : list Attendee) (a : Attendee) :
  summary event = Some s ->
  contains (toLowerCase s) keyword ->
  isWeekday (startUTCDay parse event) ->
  organizer event = Some o -> email o <> Some email_ ->
  attendees event = Some (before ++ a :: after) ->
  (forall b, In b before -> self b = false) ->
  self a = true ->
  shouldImportEvent2 parse email_ keyword event
  = Normal (strictEq (responseStatus a) "accepted").
Proof.
  intros Hs Hk Hd Ho Hne Ha Hbefore Hself.
  rewrite (shouldImportEvent2_first_self parse email_ keyword event s o
             (before ++ a :: after) Hs Hk Hd Ho Hne Ha).
  rewrite List.filter_app, (filter_self_none before Hbefore). simpl.
  now rewrite Hself.
Qed.

Lemma shouldImportEvent2_first_self_entry_decides_witness :
  shouldImportEvent2 Sample.parse Sample.bob "vacation"
    (Sample.organizedBy "carol@example.com"
       (Some [Sample.other "accepted"; Sample.me "declined";
              Sample.me "accepted"])
       (Sample.plain "uid-8" "Offsite vacation" "2026-11-04"))
  = Normal false.
Proof.
  refine (shouldImportEvent2_first_self_entry_decides
            Sample.parse Sample.bob "vacation"
            (Sample.organizedBy "carol@example.com"
               (Some [Sample.other "accepted"; Sample.me "declined";
                      Sample.me "accepted"])
               (Sample.plain "uid-8" "Offsite vacation" "2026-11-04"))
            "Offsite vacation"
            {| id := None; email := Some "carol@example.com" |}
            [Sample.other "accepted"] [Sample.me "accepted"]
            (Sample.me "declined")
            eq_refl _ _ eq_refl _ eq_refl _ eq_refl).
  - exists "offsite ", "". reflexivity.
  - exists 3%Z. split; [vm_compute; reflexivity | lia].
  - discriminate.
  - intros b [<- | []]. reflexivity.
Defined.

(** X4: the event [importEvent2] writes is never one the filter would
    accept again: its organizer is the team calendar, without an
    address, and its attendee list is empty, so for every user and
    keyword [shouldImportEvent2] does not return [true] on a mirrored
    event. *)
Theorem mirrored_event_is_not_imported_again
    (parse : string -> Date) (TEAM username email_ keyword : string)
    (event : Event) :
  shouldImportEvent2 parse email_ keyword
    (toMirroredEvent TEAM username event) <> Normal true.
Proof.
  unfold shouldImportEvent2, toMirroredEvent.
  destruct (negb (strictEq (eventType event) "default")); simpl;
    (destruct (indexOf _ keyword <? 0)%Z; [discriminate|]);
    (destruct (start event) as [st|]; [|discriminate]);
    (destruct (numEq _ 0 || numEq _ 6); discriminate).
Qed.

(** ** The calls a pass makes *)

Lemma failedReads_app t1 t2 :
  failedReads (t1 ++ t2) = failedReads t1 ++ failedReads t2.
Proof. apply flat_map_app. Qed.

Lemma retrievalErrors_app l1 l2 :
  retrievalErrors (l1 ++ l2) = retrievalErrors l1 ++ retrievalErrors l2.
Proof. apply flat_map_app. Qed.

Lemma queryCall_mono (P : Platform) (TEAM : string)
    (users users' keywords keywords' : list string) (today maxDate : Date)
    (lastRun : option Date) (c : Call) :
  incl users users' -> incl keywords keywords' ->
  queryCall P TEAM users keywords today maxDate lastRun c ->
  queryCall P TEAM users' keywords' today maxDate lastRun c.
Proof.
  intros Hu Hk. destruct c as [u p r | e cal r]; simpl.
  - intros [Hin (k & tok & Hkin & Hp)]. split; [auto|]. exists k, tok. auto.
  - intros [Hc (u & ev & Hin & He)]. split; [auto|]. exists u, ev. auto.
Qed.

Section CallDiscipline.

Variable P : Platform.
Variable TEAM : string.
Variables today maxDate : Date.
Variable lastRun : option Date.

Lemma sync2_events_calls (email_ : string) (events : list Event)
    (count : nat) (w : World) :
  exists t l,
    grows w (snd (sync2_events P TEAM (splitAt0 email_) events count w)) t l
    /\ Forall (queryCall P TEAM [email_] [] today maxDate lastRun) t
    /\ retrievalErrors l = [] /\ failedReads t = [].
Proof.
  revert count w. induction events as [|event rest IH]; intros count w; simpl.
  - exists [], []. split; [apply grows_refl | auto].
  - destruct (importEvent2_grows P TEAM (splitAt0 email_) event w) as [r Hg].
    destruct (IH (S count) (importEvent2 P TEAM (splitAt0 email_) event w))
      as (t & l & Hg' & Hf & He & Hr).
    eexists _, _. split; [eapply grows_trans; eauto|].
    rewrite retrievalErrors_app, failedReads_app, He, Hr.
    split; [| split; [destruct r|]; reflexivity].
    apply Forall_app. split; [|exact Hf].
    constructor; [|constructor]. simpl. split; [reflexivity|].
    exists email_, event. split; [now left | reflexivity].
Qed.

Lemma findEvents2_loop_calls (fuel : nat) (email_ keyword : string)
    (tok0 tok : option string) (events : list Event) (w w' : World) :
  finalWorld (findEvents2_loop P fuel email_ keyword
                (queryParams P keyword today maxDate lastRun tok0)
                tok events w) = Some w' ->
  exists t l,
    grows w w' t l
    /\ Forall (queryCall P TEAM [email_] [keyword] today maxDate lastRun) t
    /\ retrievalErrors l = failedReads t.
Proof.
  revert tok0 tok events w.
  induction fuel as [|fuel IH]; intros tok0 tok events w; [discriminate|].
  rewrite findEvents2_loop_turn, withPageToken_queryParams.
  assert (Hcall : forall r,
             queryCall P TEAM [email_] [keyword] today maxDate lastRun
               (ListCall email_
                  (queryParams P keyword today maxDate lastRun tok) r)).
  { intros r. simpl. split; [now left|].
    exists keyword, tok. split; [now left | reflexivity]. }
  destruct (Calendar_Events_list P (trace w) email_
              (queryParams P keyword today maxDate lastRun tok))
    as [e | response]; cbv zeta.
  - set (c := ListCall email_
                (queryParams P keyword today maxDate lastRun tok) (inl e)).
    assert (Hg : grows w (log (ErrorRetrieving email_ keyword e) (record c w))
                       ([c] ++ []) ([] ++ [ErrorRetrieving email_ keyword e])).
    { eapply grows_trans; [apply grows_record | apply grows_log]. }
    destruct (truthy tok).
    + intros Hend. apply IH in Hend as (t & l & Hg' & Hf & He).
      eexists _, _. split; [eapply grows_trans; eauto|].
      rewrite retrievalErrors_app, failedReads_app, He.
      split; [|reflexivity].
      apply Forall_app. split; [|exact Hf]. constructor; [apply Hcall | constructor].
    + simpl. intros Hend. inversion Hend; subst.
      eexists _, _. split; [exact Hg|]. split; [|reflexivity].
      constructor; [apply Hcall | constructor].
  - set (c := ListCall email_
                (queryParams P keyword today maxDate lastRun tok)
                (inr response)).
    assert (Hg : grows w (record c w) [c] []) by apply grows_record.
    assert (Hone : Forall (queryCall P TEAM [email_] [keyword]
                             today maxDate lastRun) [c])
      by (constructor; [apply Hcall | constructor]).
    destruct (filterC _ (items response)) as [kept | err].
    + destruct (truthy (nextPageToken response)).
      * intros Hend. apply IH in Hend as (t & l & Hg' & Hf & He).
        exists ([c] ++ t), ([] ++ l).
        split; [eapply grows_trans; eauto|].
        rewrite failedReads_app. split; [|exact He].
        apply Forall_app. split; assumption.
      * simpl. intros Hend. inversion Hend; subst.
        exists [c], []. auto.
    + simpl. intros Hend. inversion Hend; subst.
      exists [c], []. auto.
Qed.

Lemma sync2_keywords_calls (fuel : nat) (email_ : string)
    (keywords : list string) (count : nat) (w w' : World) :
  finalWorld (sync2_keywords P TEAM fuel email_ (splitAt0 email_) keywords
                today maxDate lastRun count w) = Some w' ->
  exists t l,
    grows w w' t l
    /\ Forall (queryCall P TEAM [email_] keywords today maxDate lastRun) t
    /\ retrievalErrors l = failedReads t.
Proof.
  revert count w.
  induction keywords as [|keyword rest IH]; intros count w; simpl.
  - intros Hend. inversion Hend; subst.
    exists [], []. split; [apply grows_refl | auto].
  - unfold findEvents2.
    pose proof (findEvents2_loop_calls fuel email_ keyword None None [] w)
      as Hfind.
    destruct (findEvents2_loop P fuel email_ keyword
                (queryParams P keyword today maxDate lastRun None) None [] w)
      as [events w1 | err w1 |]; simpl; [| | discriminate].
    + destruct (Hfind w1 eq_refl) as (t1 & l1 & Hg1 & Hf1 & He1).
      destruct (sync2_events_calls email_ events count w1)
        as (t2 & l2 & Hg2 & Hf2 & He2 & Hr2).
      destruct (sync2_events P TEAM (splitAt0 email_) events count w1)
        as [count' w2]. simpl in Hg2.
      intros Hend. apply IH in Hend as (t3 & l3 & Hg3 & Hf3 & He3).
      exists ((t1 ++ t2) ++ t3), ((l1 ++ l2) ++ l3).
      split; [eapply grows_trans; [eapply grows_trans|]; eauto|].
      rewrite !retrievalErrors_app, !failedReads_app, He1, He2, Hr2, He3.
      split; [|reflexivity].
      repeat (apply Forall_app; split).
      * eapply List.Forall_impl; [|exact Hf1].
        intros c. apply queryCall_mono; [apply incl_refl|].
        intros k [<- | []]. now left.
      * eapply List.Forall_impl; [|exact Hf2].
        intros c. apply queryCall_mono; [apply incl_refl|].
        intros k [].
      * eapply List.Forall_impl; [|exact Hf3].
        intros c. apply queryCall_mono; [apply incl_refl|].
        intros k Hk. now right.
    + intros Hend. inversion Hend; subst.
      destruct (Hfind w' eq_refl) as (t1 & l1 & Hg1 & Hf1 & He1).
      exists t1, l1. split; [exact Hg1|]. split; [|exact He1].
      eapply List.Forall_impl; [|exact Hf1].
      intros c. apply queryCall_mono; [apply incl_refl|].
      intros k [<- | []]. now left.
Qed.

Lemma sync2_users_calls (fuel : nat) (emails keywords : list string)
    (count : nat) (w w' : World) :
  finalWorld (sync2_users P TEAM fuel emails keywords today maxDate lastRun
                count w) = Some w' ->
  exists t l,
    grows w w' t l
    /\ Forall (queryCall P TEAM emails keywords today maxDate lastRun) t
    /\ retrievalErrors l = failedReads t.
Proof.
  revert count w.
  induction emails as [|email_ rest IH]; intros count w; simpl.
  - intros Hend. inversion Hend; subst.
    exists [], []. split; [apply grows_refl | auto].
  - pose proof (sync2_keywords_calls fuel email_ keywords count w) as Hk.
    destruct (sync2_keywords P TEAM fuel email_ (splitAt0 email_) keywords
                today maxDate lastRun count w)
      as [count' w1 | err w1 |]; simpl; [| | discriminate].
    + destruct (Hk w1 eq_refl) as (t1 & l1 & Hg1 & Hf1 & He1).
      intros Hend. apply IH in Hend as (t2 & l2 & Hg2 & Hf2 & He2).
      exists (t1 ++ t2), (l1 ++ l2).
      split; [eapply grows_trans; eauto|].
      rewrite retrievalErrors_app, failedReads_app, He1, He2.
      split; [|reflexivity].
      apply Forall_app; split.
      * eapply List.Forall_impl; [|exact Hf1].
        intros c. apply queryCall_mono; [|apply incl_refl].
        intros u [<- | []]. now left.
      * eapply List.Forall_impl; [|exact Hf2].
        intros c. apply queryCall_mono; [|apply incl_refl].
        intros u Hu. now right.
    + intros Hend. inversion Hend; subst.
      destruct (Hk w' eq_refl) as (t1 & l1 & Hg1 & Hf1 & He1).
      exists t1, l1. split; [exact Hg1|]. split; [|exact He1].
      eapply List.Forall_impl; [|exact Hf1].
      intros c. apply queryCall_mono; [|apply incl_refl].
      intros u [<- | []]. now left.
Qed.

End CallDiscipline.

(** Every call of a pass that ends belongs to the queries of the
    configured users for the configured keywords, over the window and
    the watermark read at the start; and the retrieval errors on the
    console are the list calls that threw. *)
Lemma sync2_calls (P : Platform) (TEAM : string) (USERS : list string)
    (fuel : nat) (w w' : World) :
  finalWorld (sync2 P TEAM USERS fuel w) = Some w' ->
  exists t l,
    trace w' = trace w ++ t
    /\ console w' = console w ++ l
    /\ Forall (queryCall P TEAM USERS KEYWORDS2 (Some (clock w))
                 (Some (Date_addMonths P (clock w) MONTHS_IN_ADVANCE2))
                 (lastRunDate P w)) t
    /\ retrievalErrors l = failedReads t.
Proof.
  unfold sync2. cbv zeta.
  pose proof (sync2_users_calls P TEAM (Some (clock w))
                (Some (Date_addMonths P (clock w) MONTHS_IN_ADVANCE2))
                (lastRunDate P w) fuel USERS KEYWORDS2 0 w) as Hu.
  destruct (sync2_users P TEAM fuel USERS KEYWORDS2 (Some (clock w))
              (Some (Date_addMonths P (clock w) MONTHS_IN_ADVANCE2))
              (lastRunDate P w) 0 w)
    as [count w1 | err w1 |]; simpl; [| | discriminate].
  - destruct (Hu w1 eq_refl) as (t & l & (Ht & Hl & _) & Hf & He).
    intros Hend. inversion Hend; subst. simpl.
    exists t, (l ++ [LogImported count]).
    rewrite Ht, Hl, app_assoc, retrievalErrors_app, He. simpl.
    rewrite app_nil_r. auto.
  - intros Hend. inversion Hend; subst.
    destruct (Hu w' eq_refl) as (t & l & (Ht & Hl & _) & Hf & He).
    exists t, l. auto.
Qed.

Lemma toMirroredEvent_fields (TEAM username : string) (event : Event) :
  organizer (toMirroredEvent TEAM username event)
  = Some {| id := Some TEAM; email := None |}
  /\ attendees (toMirroredEvent TEAM username event) = Some []
  /\ eventType (toMirroredEvent TEAM username event) = Some "default"
  /\ summary (toMirroredEvent TEAM username event)
     = Some ("[" +:+ username +:+ "] " +:+ toStr (summary event)).
Proof.
  unfold toMirroredEvent.
  destruct (strictEq (eventType event) "default") eqn:Ht; simpl.
  - apply strictEq_true in Ht. auto.
  - auto.
Qed.

(** X5: a pass that ends has read only what it is configured to read:
    every list call it made is on the calendar of a configured user,
    for a configured keyword, with [showDeleted] set and the window
    from the start of the pass to [MONTHS_IN_ADVANCE2] months later. *)
Theorem sync2_reads_only_configured (P : Platform) (TEAM : string)
    (USERS : list string) (fuel : nat) (w w' : World) :
  finalWorld (sync2 P TEAM USERS fuel w) = Some w' ->
  exists t,
    trace w' = trace w ++ t
    /\ Forall (fun c =>
                 match c with
                 | ListCall u p _ =>
                   In u USERS /\ In (q p) KEYWORDS2
                   /\ showDeleted p = true
                   /\ timeMin p = Utilities_formatDate P (Some (clock w))
                   /\ timeMax p
                      = Utilities_formatDate P
                          (Some (Date_addMonths P (clock w)
                                                MONTHS_IN_ADVANCE2))
                 | ImportCall _ _ _ => True
                 end) t.
Proof.
  intros Hend.
  destruct (sync2_calls P TEAM USERS fuel w w' Hend) as (t & l & Ht & _ & Hf & _).
  exists t. split; [exact Ht|].
  eapply List.Forall_impl; [|exact Hf].
  intros [u p r | e cal r]; simpl; [|auto].
  intros [Hu (k & tok & Hk & ->)]. simpl. auto.
Qed.

Lemma sync2_reads_only_configured_witness :
  exists w',
    sync2 (Sample.platform Sample.listBobPaged Sample.importFlaky)
          Sample.team [Sample.bob] 4 Sample.fresh = Returns tt w'
    /\ exists t,
         trace w' = trace Sample.fresh ++ t
         /\ Forall (fun c =>
                      match c with
                      | ListCall u p _ =>
                        In u [Sample.bob] /\ In (q p) KEYWORDS2
                        /\ showDeleted p = true
                        /\ timeMin p
                           = Utilities_formatDate
                               (Sample.platform Sample.listBobPaged
                                                Sample.importFlaky)
                               (Some (clock Sample.fresh))
                        /\ timeMax p
                           = Utilities_formatDate
                               (Sample.platform Sample.listBobPaged
                                                Sample.importFlaky)
                               (Some (Date_addMonths
                                        (Sample.platform Sample.listBobPaged
                                                         Sample.importFlaky)
                                        (clock Sample.fresh)
                                        MONTHS_IN_ADVANCE2))
                      | ImportCall _ _ _ => True
                      end) t.
Proof.
  eexists. split; [vm_compute; reflexivity|].
  apply (sync2_reads_only_configured
           (Sample.platform Sample.listBobPaged Sample.importFlaky)
           Sample.team [Sample.bob] 4 Sample.fresh).
  vm_compute. reflexivity.
Defined.

(** X6: a pass that ends has written only to the team calendar: every
    import call it made targets [TEAM_CALENDAR_ID2] and carries an event
    with the team calendar as organizer, an empty attendee list, the
    event type 'default', and a summary that starts with the bracketed
    name of a configured user. *)
Theorem sync2_writes_only_team_calendar (P : Platform) (TEAM : string)
    (USERS : list string) (fuel : nat) (w w' : World) :
  finalWorld (sync2 P TEAM USERS fuel w) = Some w' ->
  exists t,
    trace w' = trace w ++ t
    /\ Forall (fun c =>
                 match c with
                 | ImportCall e cal _ =>
                   cal = TEAM
                   /\ organizer e = Some {| id := Some TEAM; email := None |}
                   /\ attendees e = Some []
                   /\ eventType e = Some "default"
                   /\ exists u rest,
                        In u USERS
                        /\ summary e
                           = Some ("[" +:+ splitAt0 u +:+ "] " +:+ rest)
                 | ListCall _ _ _ => True
                 end) t.
Proof.
  intros Hend.
  destruct (sync2_calls P TEAM USERS fuel w w' Hend) as (t & l & Ht & _ & Hf & _).
  exists t. split; [exact Ht|].
  eapply List.Forall_impl; [|exact Hf].
  intros [u p r | e cal r]; simpl; [auto|].
  intros [Hc (u & ev & Hu & ->)].
  destruct (toMirroredEvent_fields TEAM (splitAt0 u) ev) as (Ho & Ha & Hty & Hs).
  repeat split; auto. exists u, (toStr (summary ev)). auto.
Qed.

Lemma sync2_writes_only_team_calendar_witness :
  exists w',
    sync2 (Sample.platform Sample.listBobPaged Sample.importFlaky)
          Sample.team [Sample.bob] 4 Sample.fresh = Returns tt w'
    /\ exists t,
         trace w' = trace Sample.fresh ++ t
         /\ Forall (fun c =>
                      match c with
                      | ImportCall e cal _ =>
                        cal = Sample.team
                        /\ organizer e
                           = Some {| id := Some Sample.team; email := None |}
                        /\ attendees e = Some []
                        /\ eventType e = Some "default"
                        /\ exists u rest,
                             In u [Sample.bob]
                             /\ summary e
                                = Some ("[" +:+ splitAt0 u +:+ "] " +:+ rest)
                      | ListCall _ _ _ => True
                      end) t.
Proof.
  eexists. split; [vm_compute; reflexivity|].
  apply (sync2_writes_only_team_calendar
           (Sample.platform Sample.listBobPaged Sample.importFlaky)
           Sample.team [Sample.bob] 4 Sample.fresh).
  vm_compute. reflexivity.
Defined.

(** X7: every list call that threw during a pass that ends is on the
    console: the retrieval errors logged are, in order, the failed list
    calls with their calendar, keyword and message. *)
Theorem sync2_logs_every_failed_read (P : Platform) (TEAM : string)
    (USERS : list string) (fuel : nat) (w w' : World) :
  finalWorld (sync2 P TEAM USERS fuel w) = Some w' ->
  exists t l,
    trace w' = trace w ++ t
    /\ console w' = console w ++ l
    /\ retrievalErrors l = failedReads t.
Proof.
  intros Hend.
  destruct (sync2_calls P TEAM USERS fuel w w' Hend)
    as (t & l & Ht & Hl & _ & He).
  exists t, l. auto.
Qed.

Lemma sync2_logs_every_failed_read_witness :
  exists w',
    sync2 (Sample.platform Sample.listBob Sample.importOk)
          Sample.team ["dave@example.com"; Sample.bob] 1 Sample.fresh
    = Returns tt w'
    /\ exists t l,
         trace w' = trace Sample.fresh ++ t
         /\ console w' = console Sample.fresh ++ l
         /\ retrievalErrors l = failedReads t.
Proof.
  eexists. split; [vm_compute; reflexivity|].
  apply (sync2_logs_every_failed_read
           (Sample.platform Sample.listBob Sample.importOk)
           Sample.team ["dave@example.com"; Sample.bob] 1 Sample.fresh).
  vm_compute. reflexivity.
Defined.

(** ** The watermark *)

(** X8: a pass that starts without a "lastRun" property (the first one,
    or after the property was cleared or left empty) sends no
    [updatedMin]: none of its list calls is restricted to recently
    changed events. *)
Theorem sync2_first_pass_has_no_updatedMin (P : Platform) (TEAM : string)
    (USERS : list string) (fuel : nat) (w w' : World) :
  truthy (getProperty "lastRun" w) = false ->
  finalWorld (sync2 P TEAM USERS fuel w) = Some w' ->
  exists t,
    trace w' = trace w ++ t
    /\ Forall (fun c => match c with
                        | ListCall _ p _ => updatedMin p = None
                        | ImportCall _ _ _ => True
                        end) t.
Proof.
  intros Hnone Hend.
  destruct (sync2_calls P TEAM USERS fuel w w' Hend) as (t & l & Ht & _ & Hf & _).
  exists t. split; [exact Ht|].
  eapply List.Forall_impl; [|exact Hf].
  intros [u p r | e cal r]; simpl; [|auto].
  intros [_ (k & tok & _ & ->)]. simpl.
  unfold lastRunDate. now rewrite Hnone.
Qed.

Lemma sync2_first_pass_has_no_updatedMin_witness :
  exists w',
    sync2 (Sample.platform Sample.listBob Sample.importOk)
          Sample.team [Sample.bob] 1 Sample.fresh = Returns tt w'
    /\ exists t,
         trace w' = trace Sample.fresh ++ t
         /\ Forall (fun c => match c with
                             | ListCall _ p _ => updatedMin p = None
                             | ImportCall _ _ _ => True
                             end) t.
Proof.
  eexists. split; [vm_compute; reflexivity|].
  apply (sync2_first_pass_has_no_updatedMin
           (Sample.platform Sample.listBob Sample.importOk)
           Sample.team [Sample.bob] 1 Sample.fresh).
  - reflexivity.
  - vm_compute. reflexivity.
Defined.

(** X9: the watermark written by a pass that returns is read back by
    the next pass, whenever that pass starts: when the stored string is
    not empty, every list call of a later pass that finds "lastRun" as
    the earlier pass left it carries as [updatedMin] the formatted date
    that "lastRun" parses to.  That date is the time the earlier pass
    started at; the pass itself ended later, by the time its calls
    took. *)
Theorem sync2_next_pass_reads_watermark (P : Platform) (TEAM : string)
    (USERS : list string) (fuel fuel' : nat) (w w1 w1' w2 : World) :
  sync2 P TEAM USERS fuel w = Returns tt w1 ->
  Date_toString P (clock w) <> "" ->
  getProperty "lastRun" w1' = getProperty "lastRun" w1 ->
  finalWorld (sync2 P TEAM USERS fuel' w1') = Some w2 ->
  (exists t1,
      trace w1 = trace w ++ t1
      /\ clock w1 = (clock w + elapsed (callTime w) (trace w) t1)%Z)
  /\ exists t,
       trace w2 = trace w1' ++ t
       /\ Forall (fun c =>
                    match c with
                    | ListCall _ p _ =>
                      updatedMin p
                      = Some (Utilities_formatDate P
                                (Date_parse P (Date_toString P (clock w))))
                    | ImportCall _ _ _ => True
                    end) t.
Proof.
  intros Hrun Hne Hkept Hend.
  pose proof (sync2_spec P TEAM USERS fuel w) as Hspec. rewrite Hrun in Hspec.
  destruct Hspec as (t0 & l0 & Ht0 & _ & Hp & _ & Hc & _).
  split; [exists t0; auto|].
  assert (Hlast : lastRunDate P w1'
                  = Some (Date_parse P (Date_toString P (clock w)))).
  { unfold lastRunDate. rewrite Hkept. unfold getProperty.
    rewrite Hp, lookup_insert_eq. simpl.
    destruct (String.eqb_spec (Date_toString P (clock w)) ""); [contradiction|].
    reflexivity. }
  destruct (sync2_calls P TEAM USERS fuel' w1' w2 Hend)
    as (t & l & Ht & _ & Hf & _).
  exists t. split; [exact Ht|].
  eapply List.Forall_impl; [|exact Hf].
  intros [u p r | e cal r]; simpl; [|auto].
  intros [_ (k & tok & _ & ->)]. simpl. now rewrite Hlast.
Qed.

(** A pass that starts at midnight and ends three seconds later, and
    the next pass an hour after that: it asks for what changed since
    midnight. *)
Lemma sync2_next_pass_reads_watermark_witness :
  exists w1 w2,
    sync2 (Sample.platform Sample.listBob Sample.importOk)
          Sample.team [Sample.bob] 1 Sample.fresh = Returns tt w1
    /\ clock w1 = (clock Sample.fresh + 3000)%Z
    /\ sync2 (Sample.platform Sample.listBob Sample.importOk)
             Sample.team [Sample.bob] 1 (Sample.later 3600000 w1)
       = Returns tt w2
    /\ exists t,
         trace w2 = trace w1 ++ t
         /\ Forall (fun c =>
                      match c with
                      | ListCall _ p _ =>
                        updatedMin p = Some "2026-11-02T00:00:00+0000"
                      | ImportCall _ _ _ => True
                      end) t.
Proof.
  match eval vm_compute in
        (finalWorld
           (sync2 (Sample.platform Sample.listBob Sample.importOk)
                  Sample.team [Sample.bob] 1 Sample.fresh))
  with
  | Some ?w1 =>
    assert (Hrun : sync2 (Sample.platform Sample.listBob Sample.importOk)
                         Sample.team [Sample.bob] 1 Sample.fresh
                   = Returns tt w1) by (vm_compute; reflexivity);
    match eval vm_compute in
          (finalWorld
             (sync2 (Sample.platform Sample.listBob Sample.importOk)
                    Sample.team [Sample.bob] 1 (Sample.later 3600000 w1)))
    with
    | Some ?w2 =>
      assert (Hnext : sync2 (Sample.platform Sample.listBob Sample.importOk)
                            Sample.team [Sample.bob] 1
                            (Sample.later 3600000 w1)
                      = Returns tt w2) by (vm_compute; reflexivity);
      assert (Hend : finalWorld
                       (sync2 (Sample.platform Sample.listBob Sample.importOk)
                              Sample.team [Sample.bob] 1
                              (Sample.later 3600000 w1))
                     = Some w2) by (rewrite Hnext; reflexivity);
      assert (Hne : Date_toString
                      (Sample.platform Sample.listBob Sample.importOk)
                      (clock Sample.fresh) <> "")
        by (vm_compute; discriminate);
      destruct (sync2_next_pass_reads_watermark
                  (Sample.platform Sample.listBob Sample.importOk)
                  Sample.team [Sample.bob] 1 1 Sample.fresh w1
                  (Sample.later 3600000 w1) w2 Hrun Hne eq_refl Hend)
        as [_ Hread];
      exists w1, w2
    end
  end.
  split; [exact Hrun|]. split; [vm_compute; reflexivity|].
  split; [exact Hnext|]. exact Hread.
Defined.

(** X10: a pass touches the script's state in one place only: it never
    changes the triggers, it leaves every property other than "lastRun"
    as it was, and when it ends by throwing it leaves "lastRun" as it
    was too. *)
Theorem sync2_touches_only_lastRun (P : Platform) (TEAM : string)
    (USERS : list string) (fuel : nat) (w w' : World) :
  finalWorld (sync2 P TEAM USERS fuel w) = Some w' ->
  triggers w' = triggers w
  /\ (forall k, k <> "lastRun" -> getProperty k w' = getProperty k w)
  /\ (forall e, sync2 P TEAM USERS fuel w = Throws e w' ->
                properties w' = properties w).
Proof.
  intros Hend. pose proof (sync2_spec P TEAM USERS fuel w) as Hspec.
  destruct (sync2 P TEAM USERS fuel w) as [[] w1 | err w1 |];
    simpl in Hend; inversion Hend; subst.
  - destruct Hspec as (t & l & _ & _ & Hp & Hg & _).
    split; [exact Hg | split].
    + intros k Hk. unfold getProperty. rewrite Hp.
      apply lookup_insert_ne. congruence.
    + discriminate.
  - destruct Hspec as (t & l & _ & _ & Hp & Hg & _).
    split; [exact Hg | split].
    + intros k _. unfold getProperty. now rewrite Hp.
    + intros _ _. exact Hp.
Qed.

Lemma sync2_touches_only_lastRun_witness :
  exists w',
    sync2 (Sample.platform Sample.listBob Sample.importOk) Sample.team
          [Sample.bob] 1
          (setProperty "owner" "ops" (createTrigger hourlySync2 Sample.fresh))
    = Returns tt w'
    /\ triggers w' = [hourlySync2]
    /\ getProperty "owner" w' = Some "ops".
Proof.
  eexists. split; [vm_compute; reflexivity|].
  match goal with
  | |- triggers ?w1 = _ /\ _ =>
    assert (Hend : finalWorld
                     (sync2 (Sample.platform Sample.listBob Sample.importOk)
                            Sample.team [Sample.bob] 1
                            (setProperty "owner" "ops"
                               (createTrigger hourlySync2 Sample.fresh)))
                   = Some w1) by (vm_compute; reflexivity);
    destruct (sync2_touches_only_lastRun
                (Sample.platform Sample.listBob Sample.importOk)
                Sample.team [Sample.bob] 1 _ w1 Hend)
      as (Ht & Hk & _)
  end.
  split; [exact Ht|]. rewrite Hk; [reflexivity | discriminate].
Defined.

(** ** Calendars that cannot be read *)

Section Unreadable.

Variable P : Platform.
Variable TEAM : string.
Hypothesis unreadable :
  forall hist u p, exists e, Calendar_Events_list P hist u p = inl e.

Lemma findEvents2_unreadable (fuel : nat) (email_ keyword : string)
    (start_ end_ : Date) (optSince : option Date) (w : World) :
  exists w' c e,
    findEvents2 P (S fuel) email_ keyword start_ end_ optSince w
    = Returns [] w'
    /\ grows w w' [c] [ErrorRetrieving email_ keyword e]
    /\ attempted [c] = [].
Proof.
  destruct (unreadable (trace w) email_
              (queryParams P keyword start_ end_ optSince None)) as [e He].
  unfold findEvents2.
  rewrite findEvents2_loop_turn, withPageToken_queryParams, He. simpl.
  eexists _, (ListCall email_
                (queryParams P keyword start_ end_ optSince None) (inl e)), e.
  split; [reflexivity|]. split; [|reflexivity].
  change [ListCall email_ (queryParams P keyword start_ end_ optSince None)
            (inl e)]
    with ([ListCall email_ (queryParams P keyword start_ end_ optSince None)
             (inl e)] ++ []).
  change [ErrorRetrieving email_ keyword e]
    with ([] ++ [ErrorRetrieving email_ keyword e]).
  eapply grows_trans; [apply grows_record | apply grows_log].
Qed.

Lemma sync2_keywords_unreadable (fuel : nat) (email_ username : string)
    (keywords : list string) (today maxDate : Date) (lastRun : option Date)
    (count : nat) (w : World) :
  exists w' t l,
    sync2_keywords P TEAM (S fuel) email_ username keywords today maxDate
                   lastRun count w
    = Returns count w'
    /\ grows w w' t l
    /\ attempted t = []
    /\ map fst (retrievalErrors l) = map (pair email_) keywords
    /\ length l = length keywords.
Proof.
  revert w. induction keywords as [|keyword rest IH]; intros w.
  - exists w, [], []. split; [reflexivity|]. split; [apply grows_refl | auto].
  - cbn [sync2_keywords].
    destruct (findEvents2_unreadable fuel email_ keyword today maxDate
                lastRun w) as (w1 & c & e & -> & Hg1 & Ha1).
    cbn [bind sync2_events].
    destruct (IH w1) as (w' & t & l & -> & Hg & Ha & He & Hlen).
    exists w', ([c] ++ t), ([ErrorRetrieving email_ keyword e] ++ l).
    split; [reflexivity|]. split; [eapply grows_trans; eauto|].
    rewrite attempted_app, Ha1, Ha, retrievalErrors_app, map_app, He.
    simpl. rewrite Hlen. auto.
Qed.

Lemma sync2_users_unreadable (fuel : nat) (emails keywords : list string)
    (today maxDate : Date) (lastRun : option Date)
    (count : nat) (w : World) :
  exists w' t l,
    sync2_users P TEAM (S fuel) emails keywords today maxDate lastRun count w
    = Returns count w'
    /\ grows w w' t l
    /\ attempted t = []
    /\ map fst (retrievalErrors l) = pairings emails keywords
    /\ length l = length (pairings emails keywords).
Proof.
  revert w. induction emails as [|email_ rest IH]; intros w.
  - exists w, [], []. split; [reflexivity|]. split; [apply grows_refl | auto].
  - cbn [sync2_users].
    destruct (sync2_keywords_unreadable fuel email_ (splitAt0 email_) keywords
                today maxDate lastRun count w)
      as (w1 & t1 & l1 & -> & Hg1 & Ha1 & He1 & Hl1).
    cbn [bind].
    destruct (IH w1) as (w' & t2 & l2 & -> & Hg2 & Ha2 & He2 & Hl2).
    exists w', (t1 ++ t2), (l1 ++ l2).
    split; [reflexivity|]. split; [eapply grows_trans; eauto|].
    unfold pairings in *. simpl.
    rewrite attempted_app, Ha1, Ha2, retrievalErrors_app, map_app, He1, He2,
      !length_app, Hl1, Hl2, length_map.
    auto.
Qed.

End Unreadable.

(** X11: when every list call throws (the calendars cannot be read), a
    pass still returns: it imports nothing, logs one retrieval error
    per (user, keyword) pairing and then 'Imported 0 events', and
    writes "lastRun" all the same, so the next pass will only ask for
    events changed after this one. *)
Theorem sync2_unreadable_calendars (P : Platform) (TEAM : string)
    (USERS : list string) (fuel : nat) (w : World) :
  (forall hist u p, exists e, Calendar_Events_list P hist u p = inl e) ->
  exists w' t l,
    sync2 P TEAM USERS (S fuel) w = Returns tt w'
    /\ trace w' = trace w ++ t
    /\ attempted t = []
    /\ console w' = console w ++ l ++ [LogImported 0]
    /\ map fst (retrievalErrors l) = pairings USERS KEYWORDS2
    /\ length l = length (pairings USERS KEYWORDS2)
    /\ getProperty "lastRun" w' = Some (Date_toString P (clock w)).
Proof.
  intros Hfail. unfold sync2. cbv zeta.
  destruct (sync2_users_unreadable P TEAM Hfail fuel USERS KEYWORDS2
              (Some (clock w))
              (Some (Date_addMonths P (clock w) MONTHS_IN_ADVANCE2))
              (lastRunDate P w) 0 w)
    as (w1 & t & l & -> & (Ht & Hl & Hp & _) & Ha & He & Hlen).
  cbn [bind].
  eexists _, t, l. split; [reflexivity|]. simpl.
  rewrite Ht, Hl, app_assoc. repeat split; auto.
  unfold getProperty. simpl. apply lookup_insert_eq.
Qed.

Lemma sync2_unreadable_calendars_witness :
  exists w' t l,
    sync2 (Sample.platform (fun _ _ _ => inl "Exception: Not Found")
                           Sample.importOk)
          Sample.team [Sample.bob; "carol@example.com"] 1 Sample.fresh
    = Returns tt w'
    /\ trace w' = trace Sample.fresh ++ t
    /\ attempted t = []
    /\ console w' = console Sample.fresh ++ l ++ [LogImported 0]
    /\ map fst (retrievalErrors l)
       = pairings [Sample.bob; "carol@example.com"] KEYWORDS2
    /\ length l = length (pairings [Sample.bob; "carol@example.com"] KEYWORDS2)
    /\ getProperty "lastRun" w'
       = Some (Date_toString
                 (Sample.platform (fun _ _ _ => inl "Exception: Not Found")
                                  Sample.importOk)
                 (clock Sample.fresh)).
Proof.
  apply (sync2_unreadable_calendars
           (Sample.platform (fun _ _ _ => inl "Exception: Not Found")
                            Sample.importOk)
           Sample.team [Sample.bob; "carol@example.com"] 0 Sample.fresh).
  intros hist u p. eexists. reflexivity.
Defined.

(** ** What a query returns *)

Lemma findEvents2_loop_upper_keyword (P : Platform) (fuel : nat)
    (email_ keyword : string) (params : Params) (tok : option string)
    (events evs : list Event) (w w' : World) :
  toLowerCase keyword <> keyword ->
  findEvents2_loop P fuel email_ keyword params tok events w = Returns evs w' ->
  evs = events.
Proof.
  intros Hk. revert params tok events w.
  induction fuel as [|fuel IH]; intros params tok events w; [discriminate|].
  rewrite findEvents2_loop_turn.
  destruct (Calendar_Events_list P (trace w) email_ (withPageToken params tok))
    as [e | response]; cbv zeta.
  - destruct (truthy tok); [apply IH|]. intros H. now inversion H.
  - destruct (filterC _ (items response)) as [kept | err] eqn:Hf;
      [|discriminate].
    apply filterC_Normal in Hf.
    assert (kept = []) as ->.
    { subst kept. induction (items response) as [|x l IHl]; [reflexivity|].
      simpl.
      destruct (shouldImportEvent2 (Date_parse P) email_ keyword x)
        as [[] | err] eqn:Hx; auto.
      now apply shouldImportEvent2_upper_keyword in Hx. }
    rewrite app_nil_r.
    destruct (truthy (nextPageToken response)); [apply IH|].
    intros H. now inversion H.
Qed.

(** X12: a query for a keyword that is not in lower case finds nothing:
    whatever the provider lists, [findEvents2] returns no event when it
    returns, so the entries 'PTO' and 'Out of office' of [KEYWORDS2]
    cost list calls and add no import. *)
Theorem findEvents2_upper_keyword_finds_nothing (P : Platform) (fuel : nat)
    (email_ keyword : string) (start_ end_ : Date) (optSince : option Date)
    (evs : list Event) (w w' : World) :
  toLowerCase keyword <> keyword ->
  findEvents2 P fuel email_ keyword start_ end_ optSince w = Returns evs w' ->
  evs = [].
Proof.
  intros Hk Hrun. unfold findEvents2 in Hrun.
  now apply findEvents2_loop_upper_keyword in Hrun.
Qed.

Lemma findEvents2_upper_keyword_finds_nothing_witness :
  exists w',
    findEvents2 (Sample.platform Sample.listBobPaged Sample.importOk)
                4 Sample.bob "PTO" (Some 0%Z) (Some 1%Z) None Sample.fresh
    = Returns [] w'
    /\ length (trace w') = 3%nat.
Proof.
  assert (Hrun : exists evs w',
             findEvents2 (Sample.platform Sample.listBobPaged Sample.importOk)
                         4 Sample.bob "PTO" (Some 0%Z) (Some 1%Z) None
                         Sample.fresh
             = Returns evs w' /\ length (trace w') = 3%nat).
  { eexists. eexists. split; [vm_compute; reflexivity|].
    vm_compute. reflexivity. }
  destruct Hrun as (evs & w' & Hrun & Hlen).
  exists w'. split; [|exact Hlen].
  rewrite Hrun. f_equal.
  refine (findEvents2_upper_keyword_finds_nothing
            (Sample.platform Sample.listBobPaged Sample.importOk)
            4 Sample.bob "PTO" (Some 0%Z) (Some 1%Z) None evs Sample.fresh w'
            _ Hrun).
  discriminate.
Defined.

(** X13: whenever [findEvents2] returns, whatever failed on the way, it
    has made list calls only, all on the user's calendar with the query
    object of the keyword, and what it returns is the events of the
    pages it received that pass [shouldImportEvent2], each page once
    and in the order received. *)
Theorem findEvents2_returns_filtered_pages (P : Platform) (fuel : nat)
    (email_ keyword : string) (start_ end_ : Date) (optSince : option Date)
    (evs : list Event) (w w' : World) :
  findEvents2 P fuel email_ keyword start_ end_ optSince w = Returns evs w' ->
  exists t,
    trace w' = trace w ++ t
    /\ map (pair email_) evs = selected (Date_parse P) t
    /\ attempted t = []
    /\ Forall (fun c => exists tok r,
                 c = ListCall email_
                       (queryParams P keyword start_ end_ optSince tok) r) t.
Proof.
  intros Hrun. unfold findEvents2 in Hrun.
  pose proof (findEvents2_loop_spec P fuel email_ keyword
                (queryParams P keyword start_ end_ optSince None) None [] w
                eq_refl) as Hspec.
  rewrite Hrun in Hspec.
  destruct Hspec as (t & l & new & (Ht & _) & Ha & _ & _ & Hev & Hs & _).
  simpl in Hev. subst new.
  exists t. split; [exact Ht | split; [now rewrite Hs | split; [exact Ha|]]].
  destruct (findEvents2_loop_calls P "" start_ end_ optSince fuel email_
              keyword None None [] w w') as (t' & l' & (Ht' & _) & Hf & _).
  { now rewrite Hrun. }
  assert (t' = t) as ->
    by (rewrite Ht in Ht'; now apply app_inv_head in Ht').
  clear - Hf Ha. induction Hf as [|c t Hc _ IH]; [constructor|].
  change (c :: t) with ([c] ++ t) in Ha. rewrite attempted_app in Ha.
  apply app_eq_nil in Ha as [Hc1 Ht1].
  constructor; [|now apply IH].
  destruct c as [u p r | e cal r]; [|discriminate].
  destruct Hc as [[<- | []] (k & tok & [<- | []] & ->)]. eauto.
Qed.

Lemma findEvents2_returns_filtered_pages_witness :
  exists w',
    findEvents2 (Sample.platform Sample.listBobHiccup Sample.importOk)
                4 Sample.bob "vacation" (Some 0%Z) (Some 1%Z) None Sample.fresh
    = Returns [Sample.offsite_accepted; Sample.ptoVacation] w'
    /\ exists t,
         trace w' = trace Sample.fresh ++ t
         /\ map (pair Sample.bob) [Sample.offsite_accepted; Sample.ptoVacation]
            = selected Sample.parse t
         /\ attempted t = []
         /\ Forall (fun c => exists tok r,
                      c = ListCall Sample.bob
                            (queryParams
                               (Sample.platform Sample.listBobHiccup
                                                Sample.importOk)
                               "vacation" (Some 0%Z) (Some 1%Z) None tok) r) t.
Proof.
  eexists. split; [vm_compute; reflexivity|].
  apply (findEvents2_returns_filtered_pages
           (Sample.platform Sample.listBobHiccup Sample.importOk)
           4 Sample.bob "vacation" (Some 0%Z) (Some 1%Z) None
           [Sample.offsite_accepted; Sample.ptoVacation] Sample.fresh).
  vm_compute. reflexivity.
Defined.

(** ** The first pass of [setup2] *)

Section TriggersDoNotMatter.

Variable P : Platform.
Variable TEAM : string.
Variable g : Trigger.

Lemma record_createTrigger (c : Call) (w : World) :
  record c (createTrigger g w) = createTrigger g (record c w).
Proof. reflexivity. Qed.

Lemma log_createTrigger (x : LogEntry) (w : World) :
  log x (createTrigger g w) = createTrigger g (log x w).
Proof. reflexivity. Qed.

Lemma importEvent2_createTrigger (username : string) (event : Event)
    (w : World) :
  importEvent2 P TEAM username event (createTrigger g w)
  = createTrigger g (importEvent2 P TEAM username event w).
Proof.
  unfold importEvent2. simpl.
  destruct (Calendar_Events_import P _ _ TEAM); reflexivity.
Qed.

Lemma sync2_events_createTrigger (username : string) (events : list Event)
    (count : nat) (w : World) :
  sync2_events P TEAM username events count (createTrigger g w)
  = (fst (sync2_events P TEAM username events count w),
     createTrigger g (snd (sync2_events P TEAM username events count w))).
Proof.
  revert count w. induction events as [|event rest IH]; intros count w; simpl.
  - reflexivity.
  - rewrite importEvent2_createTrigger. apply IH.
Qed.

Lemma findEvents2_loop_createTrigger (fuel : nat) (email_ keyword : string)
    (params : Params) (tok : option string) (events : list Event)
    (w : World) :
  findEvents2_loop P fuel email_ keyword params tok events (createTrigger g w)
  = inWorld (createTrigger g)
            (findEvents2_loop P fuel email_ keyword params tok events w).
Proof.
  revert params tok events w.
  induction fuel as [|fuel IH]; intros params tok events w; [reflexivity|].
  rewrite !findEvents2_loop_turn. simpl trace.
  destruct (Calendar_Events_list P (trace w) email_ (withPageToken params tok))
    as [e | response]; cbv zeta.
  - rewrite record_createTrigger, log_createTrigger.
    destruct (truthy tok); [|reflexivity]. apply IH.
  - rewrite record_createTrigger.
    destruct (filterC _ (items response)) as [kept | err]; [|reflexivity].
    destruct (truthy (nextPageToken response)); [|reflexivity]. apply IH.
Qed.

Lemma sync2_keywords_createTrigger (fuel : nat) (email_ username : string)
    (keywords : list string) (today maxDate : Date) (lastRun : option Date)
    (count : nat) (w : World) :
  sync2_keywords P TEAM fuel email_ username keywords today maxDate lastRun
                 count (createTrigger g w)
  = inWorld (createTrigger g)
            (sync2_keywords P TEAM fuel email_ username keywords today
                            maxDate lastRun count w).
Proof.
  revert count w.
  induction keywords as [|keyword rest IH]; intros count w; [reflexivity|].
  cbn [sync2_keywords]. unfold findEvents2.
  rewrite findEvents2_loop_createTrigger.
  destruct (findEvents2_loop P fuel email_ keyword _ None [] w)
    as [events w1 | err w1 |]; [| reflexivity | reflexivity].
  cbn [inWorld bind]. rewrite sync2_events_createTrigger.
  destruct (sync2_events P TEAM username events count w1) as [count' w2].
  apply IH.
Qed.

Lemma sync2_users_createTrigger (fuel : nat) (emails keywords : list string)
    (today maxDate : Date) (lastRun : option Date)
    (count : nat) (w : World) :
  sync2_users P TEAM fuel emails keywords today maxDate lastRun count
              (createTrigger g w)
  = inWorld (createTrigger g)
            (sync2_users P TEAM fuel emails keywords today maxDate lastRun
                         count w).
Proof.
  revert count w.
  induction emails as [|email_ rest IH]; intros count w; [reflexivity|].
  cbn [sync2_users]. rewrite sync2_keywords_createTrigger.
  destruct (sync2_keywords P TEAM fuel email_ (splitAt0 email_) keywords
              today maxDate lastRun count w)
    as [count' w1 | err w1 |]; [| reflexivity | reflexivity].
  cbn [inWorld bind]. apply IH.
Qed.

Lemma sync2_createTrigger (USERS : list string) (fuel : nat) (w : World) :
  sync2 P TEAM USERS fuel (createTrigger g w)
  = inWorld (createTrigger g) (sync2 P TEAM USERS fuel w).
Proof.
  unfold sync2. cbv zeta.
  change (clock (createTrigger g w)) with (clock w).
  change (lastRunDate P (createTrigger g w)) with (lastRunDate P w).
  rewrite sync2_users_createTrigger.
  destruct (sync2_users P TEAM fuel USERS KEYWORDS2 _ _ _ 0 w)
    as [count w1 | err w1 |]; reflexivity.
Qed.

End TriggersDoNotMatter.

(** X14: in a project without triggers, [setup2] is the registration of
    the hourly trigger followed by a first pass that does what [sync2]
    would have done on the spot: [setup2] ends the way [sync2] ends
    from the same world (returns, throws or does not end), with the
    same calls, console and properties, and with the hourly trigger
    added, also when that first pass throws. *)
Theorem setup2_runs_first_pass (P : Platform) (TEAM : string)
    (USERS : list string) (fuel : nat) (w : World) :
  triggers w = [] ->
  setup2 P TEAM USERS fuel w
  = inWorld (createTrigger hourlySync2) (sync2 P TEAM USERS fuel w).
Proof.
  intros Hnone. unfold setup2. rewrite Hnone. simpl.
  apply sync2_createTrigger.
Qed.

Lemma setup2_runs_first_pass_witness :
  setup2 (Sample.platform Sample.listUntitled Sample.importOk) Sample.team
         [Sample.bob] 1 Sample.fresh
  = inWorld (createTrigger hourlySync2)
            (sync2 (Sample.platform Sample.listUntitled Sample.importOk)
                   Sample.team [Sample.bob] 1 Sample.fresh).
Proof.
  exact (setup2_runs_first_pass
           (Sample.platform Sample.listUntitled Sample.importOk) Sample.team
           [Sample.bob] 1 Sample.fresh eq_refl).
Defined.

(** The first pass of that [setup2] throws on the untitled event, and
    the trigger stays registered. *)
Example setup2_keeps_trigger_when_first_pass_throws :
  exists w',
    setup2 (Sample.platform Sample.listUntitled Sample.importOk) Sample.team
           [Sample.bob] 1 Sample.fresh
    = Throws (TypeError "event.summary is undefined") w'
    /\ triggers w' = [hourlySync2]
    /\ getProperty "lastRun" w' = None.
Proof.
  eexists. split; [vm_compute; reflexivity|].
  vm_compute. split; reflexivity.
Qed.

(** ** Own events, failed first pages, and orderly reads *)

(** X15: with a keyword in lower case, the user's own event (no
    organizer, or the user as organizer) whose summary contains the
    keyword when case is ignored and whose start is on a UTC weekday is
    accepted, whatever its attendees and their answers. *)
Theorem shouldImportEvent2_accepts_own_event
    (parse : string -> Date) (email_ keyword : string)
    (event : Event) (s : string) :
  toLowerCase keyword = keyword ->
  summary event = Some s ->
  containsIgnoringCase s keyword ->
  isWeekday (startUTCDay parse event) ->
  (organizer event = None
   \/ exists o, organizer event = Some o /\ email o = Some email_) ->
  shouldImportEvent2 parse email_ keyword event = Normal true.
Proof.
  intros Hl Hs Hk Hd Ho.
  apply shouldImportEvent2_owner with s; auto.
  apply keyword_rule_iff. auto.
Qed.

Lemma shouldImportEvent2_accepts_own_event_witness :
  shouldImportEvent2 Sample.parse Sample.bob "ooo" Sample.bobOOO_tuesday
  = Normal true.
Proof.
  refine (shouldImportEvent2_accepts_own_event Sample.parse Sample.bob "ooo"
            Sample.bobOOO_tuesday "Bob OOO next week" eq_refl eq_refl _ _ _).
  - exists "bob ", " next week". reflexivity.
  - exists 2%Z. split; [vm_compute; reflexivity | lia].
  - right. eexists. split; reflexivity.
Defined.

(** X16: a list call that throws on the first page of a query ends the
    query there: [findEvents2] returns no event after that one call,
    with the error on the console naming the user and the keyword, and
    nothing else changed. *)
Theorem findEvents2_skips_failed_first_page (P : Platform) (fuel : nat)
    (email_ keyword : string) (start_ end_ : Date) (optSince : option Date)
    (w : World) (e : string) :
  Calendar_Events_list P (trace w) email_
    (queryParams P keyword start_ end_ optSince None) = inl e ->
  exists w',
    findEvents2 P (S fuel) email_ keyword start_ end_ optSince w
    = Returns [] w'
    /\ grows w w'
         [ListCall email_ (queryParams P keyword start_ end_ optSince None)
                   (inl e)]
         [ErrorRetrieving email_ keyword e].
Proof.
  intros Hfail. unfold findEvents2.
  rewrite findEvents2_loop_turn, withPageToken_queryParams, Hfail. simpl.
  eexists. split; [reflexivity|].
  change [ListCall email_ (queryParams P keyword start_ end_ optSince None)
            (inl e)]
    with ([ListCall email_ (queryParams P keyword start_ end_ optSince None)
             (inl e)] ++ []).
  change [ErrorRetrieving email_ keyword e]
    with ([] ++ [ErrorRetrieving email_ keyword e]).
  eapply grows_trans; [apply grows_record | apply grows_log].
Qed.

Lemma findEvents2_skips_failed_first_page_witness :
  exists w',
    findEvents2 (Sample.platform Sample.listBob Sample.importOk)
                1 "dave@example.com" "pto" (Some 0%Z) (Some 1%Z) None
                Sample.fresh
    = Returns [] w'
    /\ grows Sample.fresh w'
         [ListCall "dave@example.com"
            (queryParams (Sample.platform Sample.listBob Sample.importOk)
                         "pto" (Some 0%Z) (Some 1%Z) None None)
            (inl "Exception: Not Found")]
         [ErrorRetrieving "dave@example.com" "pto" "Exception: Not Found"].
Proof.
  exact (findEvents2_skips_failed_first_page
           (Sample.platform Sample.listBob Sample.importOk)
           0 "dave@example.com" "pto" (Some 0%Z) (Some 1%Z) None
           Sample.fresh "Exception: Not Found" eq_refl).
Defined.

(** X17: when the reads are orderly, [findEvents2] ends: it returns
    with any fuel above the rank of the first page, and more fuel
    changes neither the events it returns nor the world it leaves. *)
Theorem findEvents2_ends_on_orderly_reads (P : Platform)
    (rank : option string -> nat) (fuel fuel' : nat)
    (email_ keyword : string) (start_ end_ : Date) (optSince : option Date)
    (w : World) :
  orderlyReads P rank -> (rank None < fuel)%nat -> (fuel <= fuel')%nat ->
  exists evs w',
    findEvents2 P fuel email_ keyword start_ end_ optSince w = Returns evs w'
    /\ findEvents2 P fuel' email_ keyword start_ end_ optSince w
       = Returns evs w'.
Proof.
  intros Ho Hfuel Hle. unfold findEvents2.
  destruct (findEvents2_loop_total P rank Ho fuel email_ keyword
              (queryParams P keyword start_ end_ optSince None) None [] w Hfuel)
    as (evs & w' & Hrun).
  exists evs, w'. split; [exact Hrun|].
  rewrite <- Hrun. apply findEvents2_loop_more_fuel; [exact Hle|].
  rewrite Hrun. discriminate.
Qed.

(** The query "vacation" on the paginating sample provider: three
    pages, with three turns of the loop or with fifty. *)
Lemma findEvents2_ends_on_orderly_reads_witness :
  exists evs w',
    findEvents2 (Sample.platform Sample.listAnyonePaged Sample.importOk)
                5 Sample.bob "vacation" (Some 0%Z) (Some 1%Z) None Sample.fresh
    = Returns evs w'
    /\ findEvents2 (Sample.platform Sample.listAnyonePaged Sample.importOk)
                   50 Sample.bob "vacation" (Some 0%Z) (Some 1%Z) None
                   Sample.fresh
       = Returns evs w'.
Proof.
  refine (findEvents2_ends_on_orderly_reads
            (Sample.platform Sample.listAnyonePaged Sample.importOk)
            Sample.pagesLeft 5 50 Sample.bob "vacation" (Some 0%Z) (Some 1%Z)
            None Sample.fresh (sample_paged_orderly Sample.importOk) _ _).
  - vm_compute. lia.
  - lia.
Defined.

Example findEvents2_paginated_run :
  exists w',
    findEvents2 (Sample.platform Sample.listAnyonePaged Sample.importOk)
                5 Sample.bob "vacation" (Some 0%Z) (Some 1%Z) None Sample.fresh
    = Returns [Sample.offsite_accepted; Sample.ptoVacation] w'
    /\ map (fun c => match c with
                     | ListCall _ p _ => pageToken p
                     | ImportCall _ _ _ => None
                     end) (trace w')
       = [None; Some "1"; Some "2"].
Proof.
  eexists. split; [vm_compute; reflexivity|]. vm_compute. reflexivity.
Qed.
